(** * AdGuard External-DNS Sidecar: the reconciliation cycle, verified

    A shallow embedding of [main.go] (the revision with the health
    server): the pure position reconciler ([isRuleAtBottom],
    [removeRule]), the two remote operations ([fetchUserRules],
    [updateUserRules]), one cycle ([enforceRulePosition]), the ticker
    loop of [main] and the two probe handlers of [startHealthServer];
    then the startup ([loadConfig], [getEnvOrFatal], the health-check
    client mode of [main]) and the [updateUserRules] of the earlier
    revision, which sends the rules as text.

    Conventions.
    - A Go [string] is a byte sequence and [==] compares bytes; it is a
      Rocq [string] (a list of 8-bit [ascii]) compared with [String.eqb].
    - A Go [[]string] is a [list string].  The code only uses [len],
      [range], indexing and [append] on slices, none of which tells a
      nil slice from an empty one, so both are [[]].
    - A Go [int] is a [Z]; the only integers are slice lengths.
    - A runtime panic is the [None] outcome of a computation. *)

From Stdlib Require Import List String Ascii ZArith Bool Lia.
From Stdlib Require DecimalString.
Import ListNotations.
Open Scope string_scope.
Open Scope list_scope.
Open Scope Z_scope.

Set Implicit Arguments.

(* ===================================================================== *)
(** * Slices *)
(* ===================================================================== *)

Module Slice.

(** [len(s)] *)
Definition len {A} (s : list A) : Z := Z.of_nat (List.length s).

(** [s[i]]: [None] is the "index out of range" panic. *)
Definition index {A} (s : list A) (i : Z) : option A :=
  if (i <? 0) || (len s <=? i) then None else nth_error s (Z.to_nat i).

(** [append(s, x)] *)
Definition append {A} (s : list A) (x : A) : list A := s ++ [x].

(** [for _, x := range s { acc = body(acc, x) }] *)
Definition range {A B} (s : list A) (body : B -> A -> B) (acc : B) : B :=
  fold_left body s acc.

End Slice.

(* ===================================================================== *)
(** * Position reconciler: the pure part of a cycle *)
(* ===================================================================== *)

(** [func isRuleAtBottom(rules []string, targetRule string) bool] *)
Definition isRuleAtBottom (rules : list string) (targetRule : string)
  : option bool :=
  if Slice.len rules =? 0 then Some false
  else
    (* Check if the last rule matches the target *)
    match Slice.index rules (Slice.len rules - 1) with
    | Some r => Some (String.eqb r targetRule)
    | None => None
    end.

(** [func removeRule(rules []string, targetRule string) []string] *)
Definition removeRule (rules : list string) (targetRule : string)
  : list string :=
  Slice.range rules
    (fun result rule =>
       if negb (String.eqb rule targetRule)
       then Slice.append result rule
       else result)
    [].

(** The list a cycle submits when the target is not at the bottom:
    [updatedRules := removeRule(rules, target);
     updatedRules = append(updatedRules, target)]. *)
Definition updatedRules (rules : list string) (targetRule : string)
  : list string :=
  Slice.append (removeRule rules targetRule) targetRule.

(** The decision of a cycle, as the specification names it.  The code has
    no function of this name: it is the branch of [enforceRulePosition]
    after the fetch, and [enforceRulePosition_decide] below ties the two. *)
Inductive Action :=
| NoOp
| Reorder (newList : list string).

Definition decide (rules : list string) (target : string) : option Action :=
  match isRuleAtBottom rules target with
  | Some true => Some NoOp
  | Some false => Some (Reorder (updatedRules rules target))
  | None => None
  end.

(** ** Specification-side vocabulary for lists *)

(** The list with every occurrence of [t] removed, order preserved. *)
Definition without (t : string) (l : list string) : list string :=
  filter (fun r => negb (String.eqb r t)) l.

(** Number of occurrences of [t]. *)
Definition occurrences (t : string) (l : list string) : nat :=
  count_occ string_dec l t.

(** The last element, if any. *)
Definition last_rule (l : list string) : option string :=
  match rev l with
  | [] => None
  | r :: _ => Some r
  end.

(* ===================================================================== *)
(** * Data model *)
(* ===================================================================== *)

(** [type Config struct].  [CheckInterval] is a [time.Duration]. *)
Record Config := mkConfig {
  AdGuardURL : string;
  AdGuardUser : string;
  AdGuardPass : string;
  TargetRule : string;
  CheckInterval : Z;
  HealthPort : string
}.

(** [type FilteringStatus struct { UserRules []string `json:"user_rules"` }] *)
Record FilteringStatus := mkFilteringStatus {
  UserRules : list string
}.

(** The part of [*http.Request] the program sets. *)
Record Request := mkRequest {
  Method : string;
  URL : string;
  BasicAuth : option (string * string);
  ContentType : option string;
  ReqBody : option string
}.

(** The part of [*http.Response] the program reads. *)
Record Response := mkResponse {
  StatusCode : Z;
  Body : string
}.

Definition StatusOK : Z := 200.
Definition StatusServiceUnavailable : Z := 503.

(** What [client.Do(req)] returns: an error (no response was obtained:
    unreachable host, timeout, reset) or a response. *)
Inductive DoResult :=
| DoFailed (cause : string)
| DoResponse (resp : Response).

(** The errors the program returns, by the statement that makes them. *)
Inductive error :=
| ErrNewRequest (url : string)          (* err of http.NewRequest *)
| ErrDo (cause : string)                (* err of client.Do *)
| ErrStatus (code : Z) (body : string)  (* "unexpected status code %d: %s" *)
| ErrDecode                             (* err of json Decode *)
| ErrMarshal                            (* "failed to marshal rules: %w" *)
| ErrFetch (e : error)                  (* "failed to fetch rules: %w" *)
| ErrUpdate (e : error).                (* "failed to update rules: %w" *)

(** Go's [(value, error)] result pair. *)
Inductive result (A : Type) :=
| ok (a : A)
| err (e : error).
Arguments ok {A} a.
Arguments err {A} e.

(** The lines the program logs, by format string. *)
Inductive LogLine :=
| LogStarting
  (* "Starting AdGuard External-DNS Sidecar..." *)
| LogConfigLoaded (url target : string) (interval : Z)
  (* "Configuration loaded: URL=%s, Target Rule=%s, Check Interval=%v" *)
| LogHealthListening (port : string)
  (* "Health server listening on port %s" *)
| LogHealthServerError (cause : string)
  (* "Health server error: %v" *)
| LogFetched (n : Z)
  (* "Fetched %d user rules from AdGuard" *)
| LogNoAction
  (* "Target rule is already at the bottom. No action needed." *)
| LogMoving (pos total : Z)
  (* "Moving target rule to bottom position (rule %d of %d)" *)
| LogUpdated
  (* "Successfully updated user rules in AdGuard" *)
| LogInitialError (e : error)
  (* "Error on initial check: %v" *)
| LogEnforceError (e : error).
  (* "Error enforcing rule position: %v" *)

(** The two operations of the remote list client. *)
Inductive ClientOp :=
| OpFetch
| OpUpdate (rules : list string).

(** What an execution does that can be observed from outside, in order.
    [EvCall] is a history marker placed at the entry of [fetchUserRules]
    and of [updateUserRules]; the other events are real effects. *)
Inductive Event :=
| EvLog (l : LogLine)
| EvCall (op : ClientOp)
| EvHTTP (req : Request) (res : DoResult)
| EvGo (port : string)      (* go startHealthServer(port) *)
| EvNewTicker (d : Z)       (* time.NewTicker(d) *)
| EvTick.                   (* a receive from ticker.C *)

(** The Go library functions the program calls, over a world [W] that
    holds whatever is outside the process (the network, AdGuard Home).
    - [url_valid url]: [http.NewRequest] accepts [url];
    - [json_Decode body]: [json.NewDecoder(body).Decode(&status)];
    - [json_Marshal rules]: [json.Marshal] of the [{"rules": ...}] payload;
    - [client_Do]: one [client.Do(req)] exchange (the 10 s client
      timeout shows as a [DoFailed] outcome). *)
Class GoRuntime (W : Type) := {
  url_valid : string -> bool;
  json_Decode : string -> option FilteringStatus;
  json_Marshal : list string -> option string;
  client_Do : Request -> W -> DoResult * W
}.

(** The state of a run: the outside world, the events so far (oldest
    first), and the two package-level health flags. *)
Record St (W : Type) := mkSt {
  net : W;
  trace : list Event;
  healthy : bool;
  lastCheckOK : bool
}.

(** [var ( healthy = true; lastCheckOK = true )] *)
Definition initial {W} (w : W) : St W :=
  {| net := w; trace := []; healthy := true; lastCheckOK := true |}.

(* ===================================================================== *)
(** * The program *)
(* ===================================================================== *)

(** A computation either panics ([None]) or returns a value and a state. *)
Definition Go (W A : Type) : Type := St W -> option (A * St W).

Definition ret {W A} (a : A) : Go W A := fun s => Some (a, s).

Definition bind {W A B} (c : Go W A) (k : A -> Go W B) : Go W B :=
  fun s => match c s with
           | Some (a, s') => k a s'
           | None => None
           end.

Declare Scope go_scope.
Delimit Scope go_scope with go.
Notation "x <- c ;; k" := (bind c (fun x => k))
  (at level 61, c at next level, right associativity) : go_scope.
Notation "c ;; k" := (bind c (fun _ => k))
  (at level 61, right associativity) : go_scope.
Open Scope go_scope.

Section Program.

Context {W : Type} {R : GoRuntime W}.

(** The state with one more event at the end of its trace. *)
Definition push (e : Event) (s : St W) : St W :=
  {| net := net s; trace := trace s ++ [e];
     healthy := healthy s; lastCheckOK := lastCheckOK s |}.

Definition emit (e : Event) : Go W unit := fun s => Some (tt, push e s).

(** [log.Println] / [log.Printf] *)
Definition log (l : LogLine) : Go W unit := emit (EvLog l).

(** A value whose computation may have panicked. *)
Definition checked {A} (o : option A) : Go W A :=
  fun s => match o with
           | Some a => Some (a, s)
           | None => None
           end.

(** [lastCheckOK = b] *)
Definition set_lastCheckOK (b : bool) : Go W unit :=
  fun s => Some (tt, {| net := net s; trace := trace s;
                        healthy := healthy s; lastCheckOK := b |}).

(** [healthy = b] *)
Definition set_healthy (b : bool) : Go W unit :=
  fun s => Some (tt, {| net := net s; trace := trace s;
                        healthy := b; lastCheckOK := lastCheckOK s |}).

(** [client := &http.Client{Timeout: 10 * time.Second}; client.Do(req)] *)
Definition Do (req : Request) : Go W DoResult :=
  fun s => let (r, w') := client_Do req (net s) in
           Some (r, {| net := w'; trace := trace s ++ [EvHTTP req r];
                       healthy := healthy s;
                       lastCheckOK := lastCheckOK s |}).

(** [http.NewRequest(method, url, body)] *)
Definition NewRequest (method url : string) (body : option string)
  : result Request :=
  if url_valid url
  then ok {| Method := method; URL := url; BasicAuth := None;
             ContentType := None; ReqBody := body |}
  else err (ErrNewRequest url).

(** [req.SetBasicAuth(user, pass)] *)
Definition SetBasicAuth (req : Request) (user pass : string) : Request :=
  {| Method := Method req; URL := URL req; BasicAuth := Some (user, pass);
     ContentType := ContentType req; ReqBody := ReqBody req |}.

(** [req.Header.Set("Content-Type", v)] *)
Definition SetContentType (req : Request) (v : string) : Request :=
  {| Method := Method req; URL := URL req; BasicAuth := BasicAuth req;
     ContentType := Some v; ReqBody := ReqBody req |}.

(** [func fetchUserRules(config Config) ([]string, error)] *)
Definition fetchUserRules (config : Config) : Go W (result (list string)) :=
  emit (EvCall OpFetch) ;;
  let url := String.append (AdGuardURL config) "/control/filtering/status" in
  match NewRequest "GET" url None with
  | err e => ret (err e)
  | ok req =>
    let req := SetBasicAuth req (AdGuardUser config) (AdGuardPass config) in
    r <- Do req ;;
    match r with
    | DoFailed cause => ret (err (ErrDo cause))
    | DoResponse resp =>
      if negb (StatusCode resp =? StatusOK)
      then ret (err (ErrStatus (StatusCode resp) (Body resp)))
      else
        match json_Decode (Body resp) with
        | None => ret (err ErrDecode)
        | Some status => ret (ok (UserRules status))
        end
    end
  end.

(** [func updateUserRules(config Config, rules []string) error] *)
Definition updateUserRules (config : Config) (rules : list string)
  : Go W (option error) :=
  emit (EvCall (OpUpdate rules)) ;;
  let url := String.append (AdGuardURL config) "/control/filtering/set_rules" in
  (* The API expects JSON with the rules array *)
  match json_Marshal rules with
  | None => ret (Some ErrMarshal)
  | Some jsonBody =>
    match NewRequest "POST" url (Some jsonBody) with
    | err e => ret (Some e)
    | ok req =>
      let req := SetBasicAuth req (AdGuardUser config) (AdGuardPass config) in
      let req := SetContentType req "application/json" in
      r <- Do req ;;
      match r with
      | DoFailed cause => ret (Some (ErrDo cause))
      | DoResponse resp =>
        if negb (StatusCode resp =? StatusOK)
        then ret (Some (ErrStatus (StatusCode resp) (Body resp)))
        else ret None
      end
    end
  end.

(** [func enforceRulePosition(config Config) error]: one cycle. *)
Definition enforceRulePosition (config : Config) : Go W (option error) :=
  (* Fetch current rules *)
  r <- fetchUserRules config ;;
  match r with
  | err e => ret (Some (ErrFetch e))
  | ok rules =>
    log (LogFetched (Slice.len rules)) ;;
    (* Check if target rule is at the bottom *)
    atBottom <- checked (isRuleAtBottom rules (TargetRule config)) ;;
    if atBottom : bool then
      log LogNoAction ;;
      ret None
    else
      (* Remove all occurrences of the target rule and append it to the end *)
      let updatedRules := removeRule rules (TargetRule config) in
      let updatedRules := Slice.append updatedRules (TargetRule config) in
      log (LogMoving (Slice.len updatedRules) (Slice.len updatedRules)) ;;
      (* Update rules in AdGuard *)
      e <- updateUserRules config updatedRules ;;
      match e with
      | Some e => ret (Some (ErrUpdate e))
      | None =>
        log LogUpdated ;;
        ret None
      end
  end.

(** The body shared by the initial check and by every iteration of the
    ticker loop of [main]:
    [if err := enforceRulePosition(config); err != nil {
       log.Printf(...); lastCheckOK = false
     } else { lastCheckOK = true }]. *)
Definition check (onError : error -> LogLine) (config : Config)
  : Go W unit :=
  e <- enforceRulePosition config ;;
  match e with
  | Some e =>
    log (onError e) ;;
    set_lastCheckOK false
  | None => set_lastCheckOK true
  end.

(** [for range ticker.C { ... }], cut after [ticks] ticks were received.
    The loop has no exit: every finite run is such a prefix. *)
Fixpoint tickerLoop (config : Config) (ticks : nat) : Go W unit :=
  match ticks with
  | O => ret tt
  | S n =>
    emit EvTick ;;
    check LogEnforceError config ;;
    tickerLoop config n
  end.

(** [time.NewTicker(d)]: it panics when [d <= 0] ("non-positive
    interval for NewTicker"). *)
Definition NewTicker (d : Z) : Go W unit :=
  fun s => if d <=? 0 then None else emit (EvNewTicker d) s.

(** [func main()], in its serving mode, from the loaded configuration
    on, observed until [ticks] ticks were received.  The state is that
    of the main goroutine: [EvGo] marks the [go] statement, and what the
    spawned goroutine does is [startHealthServer] below, interleaved
    with the rest of [main]. *)
Definition main (config : Config) (ticks : nat) : Go W unit :=
  log LogStarting ;;
  log (LogConfigLoaded (AdGuardURL config) (TargetRule config)
                       (CheckInterval config)) ;;
  (* Start health check server *)
  emit (EvGo (HealthPort config)) ;;
  (* Run the main loop *)
  NewTicker (CheckInterval config) ;;
  (* Run immediately on startup *)
  check LogInitialError config ;;
  (* Then run on interval *)
  tickerLoop config ticks.

(** ** Health server *)

(** The handler registered for ["/healthz"]. *)
Definition healthz (s : St W) : Response :=
  if healthy s && lastCheckOK s
  then {| StatusCode := StatusOK; Body := "OK" |}
  else {| StatusCode := StatusServiceUnavailable; Body := "UNHEALTHY" |}.

(** The handler registered for ["/readyz"]. *)
Definition readyz (s : St W) : Response :=
  {| StatusCode := StatusOK; Body := "READY" |}.

(** [func startHealthServer(port string)], run as a goroutine.
    [listen] is what [http.ListenAndServe] does: [None] while it keeps
    serving, [Some cause] when it returns an error. *)
Definition startHealthServer (port : string) (listen : option string)
  : Go W unit :=
  log (LogHealthListening port) ;;
  match listen with
  | Some cause =>
    log (LogHealthServerError cause) ;;
    set_healthy false
  | None => ret tt
  end.

End Program.

(* ===================================================================== *)
(** * Vocabulary of the statements *)
(* ===================================================================== *)

(** ** Error taxonomy

    The code returns plain [error] values; the specification sorts them
    by origin.  An error of [client.Do] is a transport error; a response
    with a status other than 200 or with an undecodable body is a
    protocol error; an error raised before anything is sent (the request
    could not be built, the payload could not be marshalled) is neither.
    [%w] wrapping keeps the class of the wrapped error. *)
Inductive ErrorClass :=
| TransportError
| ProtocolError
| RequestError.

Fixpoint classify (e : error) : ErrorClass :=
  match e with
  | ErrNewRequest _ => RequestError
  | ErrDo _ => TransportError
  | ErrStatus _ _ => ProtocolError
  | ErrDecode => ProtocolError
  | ErrMarshal => RequestError
  | ErrFetch e => classify e
  | ErrUpdate e => classify e
  end.

(** ** Reading a trace *)

(** Number of entries into [fetchUserRules]. *)
Fixpoint fetchCalls (evs : list Event) : nat :=
  match evs with
  | [] => 0
  | EvCall OpFetch :: evs => S (fetchCalls evs)
  | _ :: evs => fetchCalls evs
  end.

(** The lists handed to [updateUserRules], in order. *)
Fixpoint written (evs : list Event) : list (list string) :=
  match evs with
  | [] => []
  | EvCall (OpUpdate rules) :: evs => rules :: written evs
  | _ :: evs => written evs
  end.

(** Number of [client.Do] exchanges with the given method. *)
Fixpoint exchanges (method : string) (evs : list Event) : nat :=
  match evs with
  | [] => 0
  | EvHTTP req _ :: evs =>
    if String.eqb (Method req) method
    then S (exchanges method evs)
    else exchanges method evs
  | _ :: evs => exchanges method evs
  end.

(** Number of ticks received. *)
Fixpoint ticksReceived (evs : list Event) : nat :=
  match evs with
  | [] => 0
  | EvTick :: evs => S (ticksReceived evs)
  | _ :: evs => ticksReceived evs
  end.

(** The periods of the tickers created, in order. *)
Fixpoint tickerPeriods (evs : list Event) : list Z :=
  match evs with
  | [] => []
  | EvNewTicker d :: evs => d :: tickerPeriods evs
  | _ :: evs => tickerPeriods evs
  end.

(** The error lines logged, in order. *)
Fixpoint errorsLogged (evs : list Event) : list error :=
  match evs with
  | [] => []
  | EvLog (LogInitialError e) :: evs => e :: errorsLogged evs
  | EvLog (LogEnforceError e) :: evs => e :: errorsLogged evs
  | _ :: evs => errorsLogged evs
  end.

(** What one cycle may leave in a trace: one entry into the fetch, at
    most one into the update, at most one exchange of each kind, and
    nothing of the ticker. *)
Definition oneCycle (evs : list Event) : Prop :=
  fetchCalls evs = 1%nat /\
  (List.length (written evs) <= 1)%nat /\
  (exchanges "GET" evs <= 1)%nat /\
  (exchanges "POST" evs <= 1)%nat /\
  ticksReceived evs = 0%nat /\
  tickerPeriods evs = [].

(** A result that is an error of the given class. *)
Definition failsWith {A : Type} (r : result A) (c : ErrorClass) : Prop :=
  exists e, r = err e /\ classify e = c.

(** The same for an [error] return value, [None] being [nil]. *)
Definition returnsError (r : option error) (c : ErrorClass) : Prop :=
  exists e, r = Some e /\ classify e = c.

(** The requests the two operations send. *)
Definition fetchRequest (config : Config) : Request :=
  {| Method := "GET";
     URL := String.append (AdGuardURL config) "/control/filtering/status";
     BasicAuth := Some (AdGuardUser config, AdGuardPass config);
     ContentType := None;
     ReqBody := None |}.

Definition updateRequest (config : Config) (jsonBody : string) : Request :=
  {| Method := "POST";
     URL := String.append (AdGuardURL config) "/control/filtering/set_rules";
     BasicAuth := Some (AdGuardUser config, AdGuardPass config);
     ContentType := Some "application/json";
     ReqBody := Some jsonBody |}.

(** ** The two operations, after the request is built

    What [fetchUserRules] and [updateUserRules] make of the outcome of
    their one exchange, and the state the exchange leaves; the lemmas
    [fetchUserRules_run] and [updateUserRules_run] show the code computes
    exactly these. *)
Section Outcomes.

Context {W : Type} {R : GoRuntime W}.

Definition fetchResult (res : DoResult) : result (list string) :=
  match res with
  | DoFailed cause => err (ErrDo cause)
  | DoResponse resp =>
    if StatusCode resp =? StatusOK then
      match json_Decode (Body resp) with
      | Some status => ok (UserRules status)
      | None => err ErrDecode
      end
    else err (ErrStatus (StatusCode resp) (Body resp))
  end.

Definition updateResult (res : DoResult) : option error :=
  match res with
  | DoFailed cause => Some (ErrDo cause)
  | DoResponse resp =>
    if StatusCode resp =? StatusOK then None
    else Some (ErrStatus (StatusCode resp) (Body resp))
  end.

(** The outcome of the one exchange an operation makes from state [s]:
    [None] when nothing is sent (the request cannot be built). *)
Definition fetchExchange (config : Config) (s : St W) : option DoResult :=
  if url_valid (URL (fetchRequest config))
  then Some (fst (client_Do (fetchRequest config) (net s)))
  else None.

Definition updateExchange (config : Config) (rules : list string)
           (s : St W) : option DoResult :=
  match json_Marshal rules with
  | Some b =>
    if url_valid (URL (updateRequest config b))
    then Some (fst (client_Do (updateRequest config b) (net s)))
    else None
  | None => None
  end.

(** The state after [client.Do(req)] returned [res] and left the world
    in [w']. *)
Definition answered (req : Request) (res : DoResult) (w' : W) (s : St W)
  : St W :=
  {| net := w'; trace := trace s ++ [EvHTTP req res];
     healthy := healthy s; lastCheckOK := lastCheckOK s |}.

(** The state with the flag [lastCheckOK] assigned. *)
Definition assigned (b : bool) (s : St W) : St W :=
  {| net := net s; trace := trace s;
     healthy := healthy s; lastCheckOK := b |}.

End Outcomes.

(** ** The remote list, with no other writer

    [stored w] is the rule list AdGuard Home holds in world [w].  The
    store is faithful, and this process is its only writer, when a
    decodable 200 answer to a GET carries the stored list, a GET leaves
    the store as it is, and a POST answered 200 has replaced the store
    by the list whose encoding was posted. *)
Class FaithfulStore {W : Type} (R : GoRuntime W) (stored : W -> list string)
  : Prop := {
  get_observes :
    forall req w resp w' status,
      Method req = "GET" ->
      client_Do req w = (DoResponse resp, w') ->
      StatusCode resp = StatusOK ->
      json_Decode (Body resp) = Some status ->
      UserRules status = stored w;
  get_keeps :
    forall req w res w',
      Method req = "GET" ->
      client_Do req w = (res, w') ->
      stored w' = stored w;
  post_replaces :
    forall req w resp w' rules,
      Method req = "POST" ->
      client_Do req w = (DoResponse resp, w') ->
      StatusCode resp = StatusOK ->
      ReqBody req = json_Marshal rules ->
      ReqBody req <> None ->
      stored w' = rules
}.

(* ===================================================================== *)
(** * A simulated AdGuard Home *)
(* ===================================================================== *)

(** A concrete world to run the program in: a server that stores the
    rule list and answers the two endpoints, behind a network whose
    faults are scripted, one entry per exchange.  Bodies are JSON text
    restricted to what the two endpoints carry: one object with one key
    whose value is an array of strings, the double quote and the
    backslash escaped by a backslash. *)
Module Sim.

Definition dquote : ascii := Eval cbv in ascii_of_nat 34.
Definition backslash : ascii := Eval cbv in ascii_of_nat 92.

Fixpoint escape (s : string) : string :=
  match s with
  | EmptyString => EmptyString
  | String c rest =>
    if Ascii.eqb c dquote || Ascii.eqb c backslash
    then String backslash (String c (escape rest))
    else String c (escape rest)
  end.

Definition quote (s : string) (rest : string) : string :=
  String dquote (String.append (escape s) (String dquote rest)).

Fixpoint moreElems (l : list string) (rest : string) : string :=
  match l with
  | [] => String "]" rest
  | x :: l => String "," (quote x (moreElems l rest))
  end.

Definition array (l : list string) (rest : string) : string :=
  match l with
  | [] => String "[" (String "]" rest)
  | x :: l => String "[" (quote x (moreElems l rest))
  end.

(** [{"key":[...]}] *)
Definition encode (key : string) (l : list string) : string :=
  String "{" (quote key (String ":" (array l "}"))).

Inductive ScanMode :=
| AtStart
| AfterComma
| InString (cur : string)
| Escaped (cur : string)
| AfterString.

Definition snoc (s : string) (c : ascii) : string :=
  String.append s (String c EmptyString).

(** Reads the elements of an array after its opening bracket; returns
    them with the text after the closing bracket. *)
Fixpoint scan (m : ScanMode) (acc : list string) (s : string)
  : option (list string * string) :=
  match s with
  | EmptyString => None
  | String c rest =>
    match m with
    | AtStart =>
      if Ascii.eqb c "]" then Some (rev acc, rest)
      else if Ascii.eqb c dquote then scan (InString EmptyString) acc rest
      else None
    | AfterComma =>
      if Ascii.eqb c dquote then scan (InString EmptyString) acc rest
      else None
    | InString cur =>
      if Ascii.eqb c dquote then scan AfterString (cur :: acc) rest
      else if Ascii.eqb c backslash then scan (Escaped cur) acc rest
      else scan (InString (snoc cur c)) acc rest
    | Escaped cur => scan (InString (snoc cur c)) acc rest
    | AfterString =>
      if Ascii.eqb c "," then scan AfterComma acc rest
      else if Ascii.eqb c "]" then Some (rev acc, rest)
      else None
    end
  end.

Fixpoint stripPrefix (p s : string) : option string :=
  match p, s with
  | EmptyString, _ => Some s
  | String a p, String b s => if Ascii.eqb a b then stripPrefix p s else None
  | String _ _, EmptyString => None
  end.

Definition decode (key : string) (s : string) : option (list string) :=
  match stripPrefix
          (String "{" (quote key (String ":" (String "[" EmptyString)))) s
  with
  | None => None
  | Some elems =>
    match scan AtStart [] elems with
    | Some (l, "}") => Some l
    | _ => None
    end
  end.

(** What the network does to one exchange. *)
Inductive Fault :=
| Healthy                (* the request reaches the server and is answered *)
| Down (cause : string)  (* no response: unreachable, timeout, reset *)
| Reject (code : Z)      (* an error status comes back *)
| Garbled.               (* a 200 whose body is not the expected JSON *)

Record World := mkWorld {
  store : list string;
  script : list Fault
}.

Definition nextFault (w : World) : Fault * list Fault :=
  match script w with
  | [] => (Healthy, [])
  | f :: fs => (f, fs)
  end.

Definition serve (req : Request) (rules : list string)
  : Response * list string :=
  if String.eqb (Method req) "GET" then
    ({| StatusCode := 200; Body := encode "user_rules" rules |}, rules)
  else
    match ReqBody req with
    | Some b =>
      match decode "rules" b with
      | Some l => ({| StatusCode := 200; Body := "OK" |}, l)
      | None => ({| StatusCode := 400; Body := "bad request" |}, rules)
      end
    | None => ({| StatusCode := 400; Body := "bad request" |}, rules)
    end.

Definition exchange (req : Request) (w : World) : DoResult * World :=
  let (f, fs) := nextFault w in
  match f with
  | Healthy =>
    let (resp, rules) := serve req (store w) in
    (DoResponse resp, {| store := rules; script := fs |})
  | Down cause => (DoFailed cause, {| store := store w; script := fs |})
  | Reject code =>
    (DoResponse {| StatusCode := if code =? 200 then 500 else code;
                   Body := "rejected" |},
     {| store := store w; script := fs |})
  | Garbled =>
    (DoResponse {| StatusCode := if String.eqb (Method req) "GET"
                                 then 200 else 502;
                   Body := "<html>" |},
     {| store := store w; script := fs |})
  end.

#[global] Instance runtime : GoRuntime World := {
  url_valid := fun url => String.prefix "http" url;
  json_Decode := fun body =>
    match decode "user_rules" body with
    | Some l => Some {| UserRules := l |}
    | None => None
    end;
  json_Marshal := fun rules => Some (encode "rules" rules);
  client_Do := exchange
}.

Definition config : Config :=
  {| AdGuardURL := "http://adguard:3000";
     AdGuardUser := "admin";
     AdGuardPass := "secret";
     TargetRule := "target";
     CheckInterval := 60000000000;
     HealthPort := "8080" |}.

Definition world (rules : list string) (faults : list Fault) : St World :=
  initial {| store := rules; script := faults |}.

End Sim.

(* ===================================================================== *)
(** * Startup: the configuration and the health-check client *)
(* ===================================================================== *)

(** [strings.HasSuffix(s, suffix)]:
    [len(s) >= len(suffix) && s[len(s)-len(suffix):] == suffix] *)
Definition HasSuffix (s suffix : string) : bool :=
  (String.length suffix <=? String.length s)%nat &&
  String.eqb (substring (String.length s - String.length suffix)
                        (String.length suffix) s)
             suffix.

(** [strings.TrimSuffix(s, suffix)]:
    [if HasSuffix(s, suffix) { return s[:len(s)-len(suffix)] }; return s] *)
Definition TrimSuffix (s suffix : string) : string :=
  if HasSuffix s suffix
  then substring 0 (String.length s - String.length suffix) s
  else s.

(** [time.Second], a [time.Duration]: an [int64] count of nanoseconds. *)
Definition Second : Z := 1000000000.

(** The value of an [int64] expression whose exact result is [z]. *)
Definition wrap64 (z : Z) : Z :=
  (z + 9223372036854775808) mod 18446744073709551616 - 9223372036854775808.

(** [strconv.Atoi], the one conversion the program takes from the
    library: [None] is its error. *)
Class GoStrconv := {
  Atoi : string -> option Z
}.

(** The lines [log.Fatal] and [log.Fatalf] print before the process
    exits with status 1. *)
Inductive FatalLine :=
| FatalNotSet (key : string)
  (* "Required environment variable %s is not set" *)
| FatalIntervalNotInteger
  (* "CHECK_INTERVAL must be a valid integer (seconds): %v" *)
| FatalIntervalNotPositive.
  (* "CHECK_INTERVAL must be greater than 0" *)

(** A startup step: its value, or the fatal line it died with. *)
Inductive startup (A : Type) :=
| Loaded (a : A)
| Fatal (l : FatalLine).
Arguments Loaded {A} a.
Arguments Fatal {A} l.

Definition andThen {A B} (c : startup A) (k : A -> startup B) : startup B :=
  match c with
  | Loaded a => k a
  | Fatal l => Fatal l
  end.

Section Startup.

Context {C : GoStrconv}.

(** The environment: [getenv key] is [os.Getenv(key)], the empty string
    for a variable that is not set. *)
Variable getenv : string -> string.

(** [func getEnvOrFatal(key string) string] *)
Definition getEnvOrFatal (key : string) : startup string :=
  let value := getenv key in
  if String.eqb value "" then Fatal (FatalNotSet key)
  else Loaded value.

(** [func loadConfig() Config] *)
Definition loadConfig : startup Config :=
  andThen (getEnvOrFatal "ADGUARD_URL") (fun url =>
  andThen (getEnvOrFatal "ADGUARD_USER") (fun user =>
  andThen (getEnvOrFatal "ADGUARD_PASS") (fun pass =>
  andThen (getEnvOrFatal "TARGET_RULE") (fun target =>
  (* Parse CHECK_INTERVAL with default *)
  let intervalStr := getenv "CHECK_INTERVAL" in
  andThen
    (if String.eqb intervalStr "" then Loaded (60 * Second)
     else
       match Atoi intervalStr with
       | None => Fatal FatalIntervalNotInteger
       | Some seconds =>
         if seconds <=? 0 then Fatal FatalIntervalNotPositive
         else Loaded (wrap64 (seconds * Second))
       end)
    (fun interval =>
  (* Parse HEALTH_PORT with default *)
  let port := getenv "HEALTH_PORT" in
  let port := if String.eqb port "" then "8080" else port in
  (* Ensure URL doesn't end with slash *)
  Loaded {| AdGuardURL := TrimSuffix url "/";
            AdGuardUser := user;
            AdGuardPass := pass;
            TargetRule := target;
            CheckInterval := interval;
            HealthPort := port |}))))).

(** The health-check client mode of [main] ([-health]): the exit status
    of the process.  [http_Get url] is [http.Get(url)]. *)
Definition healthCheckMode (http_Get : string -> DoResult) : Z :=
  let port := getenv "HEALTH_PORT" in
  let port := if String.eqb port "" then "8080" else port in
  match http_Get (String.append "http://localhost:"
                                (String.append port "/healthz")) with
  | DoFailed _ => 1
  | DoResponse resp =>
    if negb (StatusCode resp =? StatusOK) then 1 else 0
  end.

End Startup.

(** The URL the health-check client probes for a given port. *)
Definition probeURL (port : string) : string :=
  String.append "http://localhost:" (String.append port "/healthz").

(** The variables [loadConfig] requires, in the order it reads them. *)
Definition requiredKeys : list string :=
  ["ADGUARD_URL"; "ADGUARD_USER"; "ADGUARD_PASS"; "TARGET_RULE"].

(** How a process ends by its own statements: [os.Exit(code)], or a
    fatal line.  A panic is the [None] outcome of the computation. *)
Inductive Ended :=
| Exited (code : Z)
| Died (l : FatalLine).

(** [http.Get(url)]: the request is built as [http.NewRequest] builds
    it and sent as [client.Do] sends one; the error of either step is
    the error of the call. *)
Definition Get {W : Type} {R : GoRuntime W} (url : string)
  : Go W DoResult :=
  match NewRequest "GET" url None with
  | err _ => ret (DoFailed url)
  | ok req => Do req
  end.

(** [func main()] from its first statement, observed until [ticks]
    ticks were received: [Some] when the process has ended by its own
    statements, [None] while it is in the ticker loop.  [healthCheck] is
    the value of the [-health] flag. *)
Definition process {W : Type} {R : GoRuntime W} {C : GoStrconv}
           (healthCheck : bool) (getenv : string -> string)
           (ticks : nat)
  : Go W (option Ended) :=
  if healthCheck then
    (* Health check client mode for Docker HEALTHCHECK *)
    let port := getenv "HEALTH_PORT" in
    let port := if String.eqb port "" then "8080" else port in
    r <- Get (String.append "http://localhost:"
                            (String.append port "/healthz")) ;;
    match r with
    | DoFailed _ => ret (Some (Exited 1))
    | DoResponse resp =>
      if negb (StatusCode resp =? StatusOK) then ret (Some (Exited 1))
      else ret (Some (Exited 0))
    end
  else
    log LogStarting ;;
    match loadConfig getenv with
    | Fatal l => ret (Some (Died l))
    | Loaded config =>
      log (LogConfigLoaded (AdGuardURL config) (TargetRule config)
                           (CheckInterval config)) ;;
      (* Start health check server *)
      emit (EvGo (HealthPort config)) ;;
      (* Run the main loop *)
      NewTicker (CheckInterval config) ;;
      (* Run immediately on startup *)
      check LogInitialError config ;;
      (* Then run on interval *)
      tickerLoop config ticks ;;
      ret None
    end.



(* ===================================================================== *)
(** * The earlier revision: rules sent as plain text *)
(* ===================================================================== *)

(** The first revision of [main.go] differs from the second in
    [updateUserRules], which sends the rules as text, one per line, and
    in having no health server. *)
Module V1.

(** ["\n"] *)
Definition newline : string := String (ascii_of_nat 10) EmptyString.

(** [strings.Join(elems, sep)] *)
Definition Join (elems : list string) (sep : string) : string :=
  String.concat sep elems.

Section Program.

Context {W : Type} {R : GoRuntime W}.

(** [func updateUserRules(config Config, rules []string) error] *)
Definition updateUserRules (config : Config) (rules : list string)
  : Go W (option error) :=
  emit (EvCall (OpUpdate rules)) ;;
  let url := String.append (AdGuardURL config) "/control/filtering/set_rules" in
  (* The API expects the rules as a plain text body, one rule per line *)
  let rulesText := Join rules newline in
  match NewRequest "POST" url (Some rulesText) with
  | err e => ret (Some e)
  | ok req =>
    let req := SetBasicAuth req (AdGuardUser config) (AdGuardPass config) in
    let req := SetContentType req "text/plain" in
    r <- Do req ;;
    match r with
    | DoFailed cause => ret (Some (ErrDo cause))
    | DoResponse resp =>
      if negb (StatusCode resp =? StatusOK)
      then ret (Some (ErrStatus (StatusCode resp) (Body resp)))
      else ret None
    end
  end.

End Program.

(** The text of a body read line by line: [strings.Split(s, "\n")]. *)
Fixpoint lines (s : string) : list string :=
  match s with
  | EmptyString => [EmptyString]
  | String c rest =>
    if Ascii.eqb c (ascii_of_nat 10) then EmptyString :: lines rest
    else
      match lines rest with
      | [] => [String c EmptyString]
      | l :: ls => String c l :: ls
      end
  end.

(** The request the operation sends. *)
Definition updateRequest (config : Config) (rules : list string) : Request :=
  {| Method := "POST";
     URL := String.append (AdGuardURL config) "/control/filtering/set_rules";
     BasicAuth := Some (AdGuardUser config, AdGuardPass config);
     ContentType := Some "text/plain";
     ReqBody := Some (Join rules newline) |}.

End V1.

(* ===================================================================== *)
(** * Further vocabulary for traces *)
(* ===================================================================== *)

(** The lines logged, in order. *)
Fixpoint logged (evs : list Event) : list LogLine :=
  match evs with
  | [] => []
  | EvLog l :: evs => l :: logged evs
  | _ :: evs => logged evs
  end.

(** The requests sent, in order. *)
Fixpoint requests (evs : list Event) : list Request :=
  match evs with
  | [] => []
  | EvHTTP req _ :: evs => req :: requests evs
  | _ :: evs => requests evs
  end.



(** The text that came from outside: the bodies of the responses and
    the causes of the failed exchanges. *)
Fixpoint received (evs : list Event) : list string :=
  match evs with
  | [] => []
  | EvHTTP _ (DoResponse resp) :: evs => Body resp :: received evs
  | EvHTTP _ (DoFailed cause) :: evs => cause :: received evs
  | _ :: evs => received evs
  end.

(** The strings an error prints with [%v]. *)
Fixpoint errorStrings (e : error) : list string :=
  match e with
  | ErrNewRequest url => [url]
  | ErrDo cause => [cause]
  | ErrStatus _ body => [body]
  | ErrDecode => []
  | ErrMarshal => []
  | ErrFetch e => errorStrings e
  | ErrUpdate e => errorStrings e
  end.

(** The strings a log line prints for its [%s] and [%v] verbs. *)
Definition printed (l : LogLine) : list string :=
  match l with
  | LogConfigLoaded url target _ => [url; target]
  | LogHealthListening port => [port]
  | LogHealthServerError cause => [cause]
  | LogInitialError e => errorStrings e
  | LogEnforceError e => errorStrings e
  | _ => []
  end.

(** The strings of the configuration the program may print by itself:
    the URL, the two endpoint URLs made from it, the target and the
    health port. *)
Definition printable (config : Config) : list string :=
  [AdGuardURL config;
   TargetRule config;
   String.append (AdGuardURL config) "/control/filtering/status";
   String.append (AdGuardURL config) "/control/filtering/set_rules";
   HealthPort config].

(** What the goroutine of [startHealthServer port] adds to the log:
    its first line and, when [http.ListenAndServe] returns an error,
    the line that reports it. *)
Definition serverEvents (port : string) (listen : option string)
  : list Event :=
  EvLog (LogHealthListening port)
  :: match listen with
     | Some cause => [EvLog (LogHealthServerError cause)]
     | None => []
     end.

(** The ways the events of two goroutines may come out in one log:
    each keeps its own order. *)
Inductive Interleaving {A : Type} : list A -> list A -> list A -> Prop :=
| InterleavingNil : Interleaving [] [] []
| InterleavingLeft (a : A) (l r m : list A) :
    Interleaving l r m -> Interleaving (a :: l) r (a :: m)
| InterleavingRight (a : A) (l r m : list A) :
    Interleaving l r m -> Interleaving l (a :: r) (a :: m).

(** The events of the startup of [main], before its first cycle. *)
Definition startupEvents (config : Config) : list Event :=
  [EvLog LogStarting;
   EvLog (LogConfigLoaded (AdGuardURL config) (TargetRule config)
                          (CheckInterval config));
   EvGo (HealthPort config);
   EvNewTicker (CheckInterval config)].

Section CycleTraces.

Context {W : Type} {R : GoRuntime W}.

(** The shapes of what one cycle adds to the trace, with the error the
    cycle returns: the request for the fetch cannot be built; the fetch
    fails; the fetched list ends in the target; the update cannot be
    sent; the update is sent. *)
Inductive CycleTrace (config : Config) : option error -> list Event -> Prop :=
| CycleUnsent :
    CycleTrace config
      (Some (ErrFetch (ErrNewRequest (URL (fetchRequest config)))))
      [EvCall OpFetch]
| CycleFetchFailed (res : DoResult) (x : error) :
    fetchResult res = err x ->
    CycleTrace config
      (Some (ErrFetch x))
      [EvCall OpFetch; EvHTTP (fetchRequest config) res]
| CycleNoOp (res : DoResult) (L : list string) :
    fetchResult res = ok L ->
    last_rule L = Some (TargetRule config) ->
    CycleTrace config None
      [EvCall OpFetch; EvHTTP (fetchRequest config) res;
       EvLog (LogFetched (Slice.len L)); EvLog LogNoAction]
| CycleUpdateUnsent (res : DoResult) (L L' : list string) (x : error) :
    fetchResult res = ok L ->
    last_rule L <> Some (TargetRule config) ->
    L' = without (TargetRule config) L ++ [TargetRule config] ->
    (json_Marshal L' = None /\ x = ErrMarshal \/
     exists b, json_Marshal L' = Some b /\
               x = ErrNewRequest (URL (updateRequest config b))) ->
    CycleTrace config
      (Some (ErrUpdate x))
      [EvCall OpFetch; EvHTTP (fetchRequest config) res;
       EvLog (LogFetched (Slice.len L));
       EvLog (LogMoving (Slice.len L') (Slice.len L'));
       EvCall (OpUpdate L')]
| CycleUpdateFailed (res : DoResult) (L L' : list string) (b : string)
                    (res' : DoResult) (x : error) :
    fetchResult res = ok L ->
    last_rule L <> Some (TargetRule config) ->
    L' = without (TargetRule config) L ++ [TargetRule config] ->
    json_Marshal L' = Some b ->
    updateResult res' = Some x ->
    CycleTrace config
      (Some (ErrUpdate x))
      [EvCall OpFetch; EvHTTP (fetchRequest config) res;
       EvLog (LogFetched (Slice.len L));
       EvLog (LogMoving (Slice.len L') (Slice.len L'));
       EvCall (OpUpdate L');
       EvHTTP (updateRequest config b) res']
| CycleUpdated (res : DoResult) (L L' : list string) (b : string)
               (res' : DoResult) :
    fetchResult res = ok L ->
    last_rule L <> Some (TargetRule config) ->
    L' = without (TargetRule config) L ++ [TargetRule config] ->
    json_Marshal L' = Some b ->
    updateResult res' = None ->
    CycleTrace config None
      [EvCall OpFetch; EvHTTP (fetchRequest config) res;
       EvLog (LogFetched (Slice.len L));
       EvLog (LogMoving (Slice.len L') (Slice.len L'));
       EvCall (OpUpdate L');
       EvHTTP (updateRequest config b) res';
       EvLog LogUpdated].

(** What the body of the loop adds for one cycle: the cycle's events
    and, when it failed, the line that reports the error. *)
Definition reported (onError : error -> LogLine) (e : option error)
  : list Event :=
  match e with
  | Some x => [EvLog (onError x)]
  | None => []
  end.

(** The traces of a run of [main]: the startup, the first cycle, and a
    tick and a cycle for every tick received. *)
Inductive LoopTrace (config : Config) : nat -> list Event -> Prop :=
| LoopDone : LoopTrace config O []
| LoopTick (n : nat) (e : option error) (cycle rest : list Event) :
    CycleTrace config e cycle ->
    LoopTrace config n rest ->
    LoopTrace config (S n)
              (EvTick :: cycle ++ reported LogEnforceError e ++ rest).

Inductive RunTrace (config : Config) (ticks : nat) : list Event -> Prop :=
| RunStarted (e : option error) (cycle rest : list Event) :
    CycleTrace config e cycle ->
    LoopTrace config ticks rest ->
    RunTrace config ticks
             (startupEvents config ++ cycle
                ++ reported LogInitialError e ++ rest).

End CycleTraces.



(** The requests the program may send for a configuration: the fetch,
    or the update carrying the encoding of a list that ends in the
    target and holds it once. *)
Definition expectedRequest {W : Type} {R : GoRuntime W}
           (config : Config) (req : Request) : Prop :=
  req = fetchRequest config \/
  exists L b,
    json_Marshal L = Some b /\
    req = updateRequest config b /\
    last_rule L = Some (TargetRule config) /\
    occurrences (TargetRule config) L = 1%nat.

(** A simulated environment for the startup. *)
Module SimEnv.

(** Decimal integers with an optional sign, within [int64]. *)
Definition atoi (s : string) : option Z :=
  let digits (d : string) : option Z :=
    match d with
    | EmptyString => None
    | _ => option_map Z.of_uint (DecimalString.NilEmpty.uint_of_string d)
    end in
  let value :=
    match s with
    | EmptyString => None
    | String c rest =>
      if Ascii.eqb c "-" then option_map Z.opp (digits rest)
      else if Ascii.eqb c "+" then digits rest
      else digits s
    end in
  match value with
  | Some z =>
    if (-9223372036854775808 <=? z) && (z <=? 9223372036854775807)
    then Some z else None
  | None => None
  end.

#[global] Instance strconv : GoStrconv := {| Atoi := atoi |}.

(** An environment given as a list of bindings, first binding first. *)
Fixpoint lookup (env : list (string * string)) (key : string) : string :=
  match env with
  | [] => EmptyString
  | (k, v) :: env => if String.eqb k key then v else lookup env key
  end.

Definition env : string -> string :=
  lookup [("ADGUARD_URL", "http://adguard:3000/");
          ("ADGUARD_USER", "admin");
          ("ADGUARD_PASS", "secret");
          ("TARGET_RULE", "target");
          ("CHECK_INTERVAL", "30")].

(** The same with an interval whose nanoseconds do not fit 64 bits. *)
Definition longEnv : string -> string :=
  lookup [("ADGUARD_URL", "http://adguard:3000/");
          ("ADGUARD_USER", "admin");
          ("ADGUARD_PASS", "secret");
          ("TARGET_RULE", "target");
          ("CHECK_INTERVAL", "9223372037")].

End SimEnv.

(* ===================================================================== *)
(** * Facts about slices and the position reconciler *)
(* ===================================================================== *)

Module SliceFacts.

Lemma len_nonneg {A} (s : list A) : 0 <= Slice.len s.
Proof. unfold Slice.len; lia. Qed.

Lemma len_zero {A} (s : list A) : Slice.len s = 0 <-> s = [].
Proof.
  unfold Slice.len; split; intro H; [| subst; reflexivity].
  destruct s; [reflexivity | simpl in H; lia].
Qed.

Lemma len_app_one {A} (s : list A) (x : A) :
  Slice.len (s ++ [x]) = Slice.len s + 1.
Proof. unfold Slice.len; rewrite length_app; simpl; lia. Qed.

Lemma index_last {A} (s : list A) (x : A) :
  Slice.index (s ++ [x]) (Slice.len (s ++ [x]) - 1) = Some x.
Proof.
  unfold Slice.index. rewrite len_app_one.
  replace (Slice.len s + 1 - 1) with (Slice.len s) by lia.
  pose proof (len_nonneg s) as Hs.
  destruct (Slice.len s <? 0) eqn:E1; [apply Z.ltb_lt in E1; lia |].
  destruct (Slice.len s + 1 <=? Slice.len s) eqn:E2;
    [apply Z.leb_le in E2; lia |].
  simpl. unfold Slice.len. rewrite Nat2Z.id.
  rewrite nth_error_app2 by lia.
  rewrite Nat.sub_diag. reflexivity.
Qed.

End SliceFacts.

(** ** Facts about the reconciler *)

Lemma last_rule_snoc (l : list string) (x : string) :
  last_rule (l ++ [x]) = Some x.
Proof. unfold last_rule. rewrite rev_app_distr. reflexivity. Qed.

Lemma last_rule_nil_inv (l : list string) : last_rule l = None -> l = [].
Proof.
  unfold last_rule. destruct (rev l) eqn:E; [| discriminate].
  intros _. apply (f_equal (@rev string)) in E.
  rewrite rev_involutive in E. exact E.
Qed.

Lemma last_rule_some_inv (l : list string) (x : string) :
  last_rule l = Some x -> exists l0, l = l0 ++ [x].
Proof.
  unfold last_rule. destruct (rev l) as [| r rs] eqn:E; [discriminate |].
  intros [= ->]. exists (rev rs).
  apply (f_equal (@rev string)) in E. rewrite rev_involutive in E.
  exact E.
Qed.

(** [isRuleAtBottom] never indexes out of range, and answers whether the
    last element is the target. *)
Lemma isRuleAtBottom_last (rules : list string) (t : string) :
  isRuleAtBottom rules t =
  Some (match last_rule rules with
        | Some r => String.eqb r t
        | None => false
        end).
Proof.
  unfold isRuleAtBottom.
  destruct (last_rule rules) as [r |] eqn:E.
  - apply last_rule_some_inv in E. destruct E as [l0 ->].
    destruct (Slice.len (l0 ++ [r]) =? 0) eqn:Z0.
    + apply Z.eqb_eq, SliceFacts.len_zero in Z0. destruct l0; discriminate.
    + rewrite SliceFacts.index_last. reflexivity.
  - apply last_rule_nil_inv in E. subst. reflexivity.
Qed.

Lemma isRuleAtBottom_true_iff (rules : list string) (t : string) :
  isRuleAtBottom rules t = Some true <-> last_rule rules = Some t.
Proof.
  rewrite isRuleAtBottom_last. destruct (last_rule rules) as [r |].
  - split.
    + intros [= H]. apply String.eqb_eq in H. now subst.
    + intros [= ->]. now rewrite String.eqb_refl.
  - split; discriminate.
Qed.

Lemma isRuleAtBottom_false_iff (rules : list string) (t : string) :
  isRuleAtBottom rules t = Some false <-> last_rule rules <> Some t.
Proof.
  rewrite isRuleAtBottom_last. destruct (last_rule rules) as [r |].
  - destruct (String.eqb_spec r t) as [-> | Hne]; split; intro H;
      congruence.
  - split; [discriminate | reflexivity].
Qed.

Lemma isRuleAtBottom_total (rules : list string) (t : string) :
  isRuleAtBottom rules t <> None.
Proof. rewrite isRuleAtBottom_last. discriminate. Qed.

(** The accumulating loop of [removeRule], from any accumulator. *)
Lemma removeRule_loop (t : string) (rules acc : list string) :
  Slice.range rules
    (fun result rule =>
       if negb (String.eqb rule t) then Slice.append result rule else result)
    acc
  = acc ++ without t rules.
Proof.
  unfold Slice.range.
  revert acc; induction rules as [| r rules IH]; intro acc; simpl.
  - now rewrite app_nil_r.
  - rewrite IH. destruct (negb (String.eqb r t)).
    + unfold Slice.append. now rewrite <- app_assoc.
    + reflexivity.
Qed.

Lemma removeRule_without (rules : list string) (t : string) :
  removeRule rules t = without t rules.
Proof. unfold removeRule. now rewrite removeRule_loop. Qed.

Lemma without_app (t : string) (l1 l2 : list string) :
  without t (l1 ++ l2) = without t l1 ++ without t l2.
Proof. unfold without. apply filter_app. Qed.

Lemma without_idem (t : string) (l : list string) :
  without t (without t l) = without t l.
Proof.
  unfold without. induction l as [| r l IH]; simpl; [reflexivity |].
  destruct (negb (String.eqb r t)) eqn:E; simpl; rewrite ?E, IH; reflexivity.
Qed.

Lemma without_not_in (t : string) (l : list string) : ~ In t (without t l).
Proof.
  unfold without. intro H. apply filter_In in H. destruct H as [_ H].
  now rewrite String.eqb_refl in H.
Qed.

Lemma without_absent (t : string) (l : list string) :
  ~ In t l -> without t l = l.
Proof.
  unfold without. induction l as [| r l IH]; simpl; intro H; [reflexivity |].
  destruct (String.eqb_spec r t) as [-> | Hne]; simpl.
  - exfalso; apply H; now left.
  - f_equal. apply IH. intro; apply H; now right.
Qed.

Lemma occurrences_without (t : string) (l : list string) :
  occurrences t (without t l) = 0%nat.
Proof. unfold occurrences. apply count_occ_not_In, without_not_in. Qed.

Lemma occurrences_app (t : string) (l1 l2 : list string) :
  occurrences t (l1 ++ l2) = (occurrences t l1 + occurrences t l2)%nat.
Proof. unfold occurrences. apply count_occ_app. Qed.

Lemma updatedRules_eq (rules : list string) (t : string) :
  updatedRules rules t = without t rules ++ [t].
Proof. unfold updatedRules, Slice.append. now rewrite removeRule_without. Qed.


Lemma last_rule_in (l : list string) (x : string) :
  last_rule l = Some x -> In x l.
Proof.
  intro H. apply last_rule_some_inv in H. destruct H as [l0 ->].
  apply in_or_app. right. now left.
Qed.

Lemma updatedRules_last (rules : list string) (t : string) :
  last_rule (updatedRules rules t) = Some t.
Proof. rewrite updatedRules_eq. apply last_rule_snoc. Qed.

Lemma decide_total (rules : list string) (t : string) :
  decide rules t <> None.
Proof.
  unfold decide. rewrite isRuleAtBottom_last.
  destruct (last_rule rules) as [r |]; [destruct (String.eqb r t) |];
    discriminate.
Qed.

Lemma decide_NoOp_iff (rules : list string) (t : string) :
  decide rules t = Some NoOp <-> last_rule rules = Some t.
Proof.
  rewrite <- isRuleAtBottom_true_iff. unfold decide.
  destruct (isRuleAtBottom rules t) as [[|] |]; split; congruence.
Qed.

Lemma decide_Reorder_iff (rules : list string) (t : string)
      (newList : list string) :
  decide rules t = Some (Reorder newList) <->
  last_rule rules <> Some t /\ newList = without t rules ++ [t].
Proof.
  rewrite <- isRuleAtBottom_false_iff, <- updatedRules_eq. unfold decide.
  pose proof (isRuleAtBottom_total rules t) as Ht.
  destruct (isRuleAtBottom rules t) as [[|] |]; split;
    try congruence; try (intros [? ?]; congruence).
  intros [= <-]. split; reflexivity.
Qed.

Lemma without_updated (rules : list string) (t : string) :
  without t (without t rules ++ [t]) = without t rules.
Proof.
  rewrite without_app, without_idem. unfold without at 2. simpl.
  rewrite String.eqb_refl. simpl. apply app_nil_r.
Qed.

Lemma occurrences_updated (rules : list string) (t : string) :
  occurrences t (without t rules ++ [t]) = 1%nat.
Proof.
  rewrite occurrences_app, occurrences_without.
  unfold occurrences. simpl. destruct (string_dec t t); congruence.
Qed.

(* ===================================================================== *)
(** * The decision *)
(* ===================================================================== *)

(** C2.  When the decision is [Reorder L'], the list [L] was empty or did
    not end in the target, and [L'] is [L] without any occurrence of the
    target, in the order of [L], followed by one target: the target
    occurs exactly once in [L'], at the last position, and removing it
    from [L'] gives what removing it from [L] gives. *)
Theorem reorder_moves_target_last
        (L : list string) (T : string) (L' : list string) :
  decide L T = Some (Reorder L') ->
  (L = [] \/ exists L0 r, L = L0 ++ [r] /\ r <> T) /\
  L' = without T L ++ [T] /\
  L' = removeRule L T ++ [T] /\
  occurrences T L' = 1%nat /\
  last_rule L' = Some T /\
  without T L' = without T L /\
  removeRule L' T = removeRule L T.
Proof.
  intro H. apply decide_Reorder_iff in H. destruct H as [Hlast ->].
  split.
  { destruct (last_rule L) as [r |] eqn:E.
    - right. apply last_rule_some_inv in E. destruct E as [L0 ->].
      exists L0, r. split; [reflexivity | congruence].
    - left. now apply last_rule_nil_inv. }
  rewrite !removeRule_without, without_updated.
  repeat split.
  - apply occurrences_updated.
  - apply last_rule_snoc.
Qed.

Lemma reorder_moves_target_last_witness :
  decide ["rule1"; "target"; "rule2"] "target"
  = Some (Reorder ["rule1"; "rule2"; "target"]) /\
  occurrences "target" ["rule1"; "rule2"; "target"] = 1%nat /\
  without "target" ["rule1"; "rule2"; "target"]
  = without "target" ["rule1"; "target"; "rule2"].
Proof.
  split; [reflexivity |].
  pose proof (@reorder_moves_target_last
                ["rule1"; "target"; "rule2"] "target"
                ["rule1"; "rule2"; "target"] eq_refl) as H.
  split; [apply H | apply H].
Defined.

(** C5.  On the empty list the decision is [Reorder [T]]; on a list in
    which the target does not occur it is [Reorder], the list with the
    target appended. *)
Theorem empty_or_absent_appends (T : string) :
  decide [] T = Some (Reorder [T]) /\
  (forall L, ~ In T L -> decide L T = Some (Reorder (L ++ [T]))).
Proof.
  split; [reflexivity |].
  intros L Hnot. apply decide_Reorder_iff. split.
  - intro H. apply Hnot. now apply last_rule_in.
  - now rewrite without_absent.
Qed.

Lemma empty_or_absent_appends_witness :
  decide [] "target" = Some (Reorder ["target"]) /\
  decide ["rule1"; "rule2"] "target"
  = Some (Reorder ["rule1"; "rule2"; "target"]).
Proof.
  split.
  - exact (proj1 (empty_or_absent_appends "target")).
  - apply (proj2 (empty_or_absent_appends "target") ["rule1"; "rule2"]).
    simpl. intros [H | [H | []]]; discriminate H.
Defined.

(** Runs of the decision on the lists of [main_test.go]. *)
Example scenario_at_bottom :
  decide ["rule1"; "rule2"; "target"] "target" = Some NoOp.
Proof. reflexivity. Qed.

Example scenario_in_the_middle :
  decide ["rule1"; "target"; "rule2"] "target"
  = Some (Reorder ["rule1"; "rule2"; "target"]).
Proof. reflexivity. Qed.

(** A list that ends in the target is left alone, duplicates included. *)
Example duplicate_ending_in_target :
  decide ["target"; "rule1"; "target"] "target" = Some NoOp.
Proof. reflexivity. Qed.

Example duplicate_not_at_bottom :
  decide ["target"; "rule1"; "target"; "rule2"] "target"
  = Some (Reorder ["rule1"; "rule2"; "target"]).
Proof. reflexivity. Qed.

Example test_removeRule_multiple :
  removeRule ["target"; "rule1"; "target"] "target" = ["rule1"].
Proof. reflexivity. Qed.

Example test_isRuleAtBottom_missing :
  isRuleAtBottom ["rule1"; "rule2"] "target" = Some false.
Proof. reflexivity. Qed.

(* ===================================================================== *)
(** * Facts about traces *)
(* ===================================================================== *)

Lemma fetchCalls_app (a b : list Event) :
  fetchCalls (a ++ b) = (fetchCalls a + fetchCalls b)%nat.
Proof.
  induction a as [| e a IH]; simpl; [reflexivity |].
  destruct e as [| [|] | | | |]; simpl; rewrite IH; reflexivity.
Qed.

Lemma written_app (a b : list Event) :
  written (a ++ b) = written a ++ written b.
Proof.
  induction a as [| e a IH]; simpl; [reflexivity |].
  destruct e as [| [|] | | | |]; simpl; rewrite IH; reflexivity.
Qed.

Lemma exchanges_app (m : string) (a b : list Event) :
  exchanges m (a ++ b) = (exchanges m a + exchanges m b)%nat.
Proof.
  induction a as [| e a IH]; simpl; [reflexivity |].
  destruct e; simpl; try (rewrite IH; reflexivity).
  destruct (String.eqb (Method req) m); simpl; rewrite IH; reflexivity.
Qed.

Lemma ticksReceived_app (a b : list Event) :
  ticksReceived (a ++ b) = (ticksReceived a + ticksReceived b)%nat.
Proof.
  induction a as [| e a IH]; simpl; [reflexivity |].
  destruct e; simpl; rewrite IH; reflexivity.
Qed.

Lemma tickerPeriods_app (a b : list Event) :
  tickerPeriods (a ++ b) = tickerPeriods a ++ tickerPeriods b.
Proof.
  induction a as [| e a IH]; simpl; [reflexivity |].
  destruct e; simpl; rewrite IH; reflexivity.
Qed.

Lemma errorsLogged_app (a b : list Event) :
  errorsLogged (a ++ b) = errorsLogged a ++ errorsLogged b.
Proof.
  induction a as [| e a IH]; simpl; [reflexivity |].
  destruct e as [[] | | | | |]; simpl; rewrite IH; reflexivity.
Qed.

(* ===================================================================== *)
(** * Facts about the program *)
(* ===================================================================== *)

Section ProgramFacts.

Context {W : Type} {R : GoRuntime W}.

(** ** What each function computes *)

Lemma fetchUserRules_run (config : Config) (s : St W) :
  fetchUserRules config s =
  if url_valid (URL (fetchRequest config)) then
    Some (fetchResult
            (fst (client_Do (fetchRequest config) (net s))),
          answered (fetchRequest config)
                   (fst (client_Do (fetchRequest config) (net s)))
                   (snd (client_Do (fetchRequest config) (net s)))
                   (push (EvCall OpFetch) s))
  else
    Some (err (ErrNewRequest (URL (fetchRequest config))),
          push (EvCall OpFetch) s).
Proof.
  unfold fetchUserRules, bind, emit, NewRequest, fetchRequest. simpl.
  destruct (url_valid _); [| reflexivity].
  unfold Do, SetBasicAuth. simpl.
  destruct (client_Do _ (net s)) as [res w'] eqn:E. simpl.
  destruct res as [cause | resp]; simpl; [reflexivity |].
  destruct (StatusCode resp =? StatusOK); simpl; [| reflexivity].
  destruct (json_Decode (Body resp)); reflexivity.
Qed.

Lemma updateUserRules_run (config : Config) (rules : list string)
      (s : St W) :
  updateUserRules config rules s =
  match json_Marshal rules with
  | None => Some (Some ErrMarshal, push (EvCall (OpUpdate rules)) s)
  | Some b =>
    if url_valid (URL (updateRequest config b)) then
      Some (updateResult
              (fst (client_Do (updateRequest config b) (net s))),
            answered (updateRequest config b)
                     (fst (client_Do (updateRequest config b) (net s)))
                     (snd (client_Do (updateRequest config b) (net s)))
                     (push (EvCall (OpUpdate rules)) s))
    else
      Some (Some (ErrNewRequest (URL (updateRequest config b))),
            push (EvCall (OpUpdate rules)) s)
  end.
Proof.
  unfold updateUserRules, bind, emit, NewRequest, updateRequest. simpl.
  destruct (json_Marshal rules) as [b |]; [| reflexivity].
  destruct (url_valid _); [| reflexivity].
  unfold Do, SetBasicAuth, SetContentType. simpl.
  destruct (client_Do _ (net s)) as [res w'] eqn:E. simpl.
  destruct res as [cause | resp]; simpl; [reflexivity |].
  destruct (StatusCode resp =? StatusOK); reflexivity.
Qed.

(** A cycle is a fetch, the decision on what was fetched, and the write
    the decision asks for. *)
Lemma enforceRulePosition_decide (config : Config) (s : St W) :
  enforceRulePosition config s =
  match fetchUserRules config s with
  | None => None
  | Some (err e, s1) => Some (Some (ErrFetch e), s1)
  | Some (ok rules, s1) =>
    match decide rules (TargetRule config) with
    | None => None
    | Some NoOp =>
      Some (None, push (EvLog LogNoAction)
                       (push (EvLog (LogFetched (Slice.len rules))) s1))
    | Some (Reorder newList) =>
      match updateUserRules config newList
              (push (EvLog (LogMoving (Slice.len newList)
                                      (Slice.len newList)))
                    (push (EvLog (LogFetched (Slice.len rules))) s1))
      with
      | None => None
      | Some (Some e, s2) => Some (Some (ErrUpdate e), s2)
      | Some (None, s2) => Some (None, push (EvLog LogUpdated) s2)
      end
    end
  end.
Proof.
  unfold enforceRulePosition, bind at 1.
  destruct (fetchUserRules config s) as [[[rules | e] s1] |];
    try reflexivity.
  unfold decide, updatedRules, bind, log, emit, checked, ret.
  destruct (isRuleAtBottom rules (TargetRule config)) as [[|] |];
    try reflexivity.
  destruct (updateUserRules config _ _) as [[[e |] s2] |]; reflexivity.
Qed.

Lemma check_run (onError : error -> LogLine) (config : Config) (s : St W) :
  check onError config s =
  match enforceRulePosition config s with
  | None => None
  | Some (Some e, s1) =>
    Some (tt, assigned false (push (EvLog (onError e)) s1))
  | Some (None, s1) => Some (tt, assigned true s1)
  end.
Proof.
  unfold check, bind at 1.
  destruct (enforceRulePosition config s) as [[[e |] s1] |]; reflexivity.
Qed.

(** ** What each function leaves in the state *)

Lemma push_trace (e : Event) (s : St W) :
  trace (push e s) = trace s ++ [e].
Proof. reflexivity. Qed.

Lemma fetchUserRules_frame (config : Config) (s : St W) :
  exists r s1 evs,
    fetchUserRules config s = Some (r, s1) /\
    trace s1 = trace s ++ evs /\
    healthy s1 = healthy s /\ lastCheckOK s1 = lastCheckOK s /\
    (evs = [EvCall OpFetch] \/
     exists res, evs = [EvCall OpFetch; EvHTTP (fetchRequest config) res]).
Proof.
  rewrite fetchUserRules_run.
  destruct (url_valid _); do 3 eexists; (split; [reflexivity |]); simpl.
  - rewrite <- app_assoc. simpl. repeat split. right. eexists. reflexivity.
  - repeat split. now left.
Qed.

Lemma updateUserRules_frame (config : Config) (rules : list string)
      (s : St W) :
  exists e s1 evs,
    updateUserRules config rules s = Some (e, s1) /\
    trace s1 = trace s ++ evs /\
    healthy s1 = healthy s /\ lastCheckOK s1 = lastCheckOK s /\
    (evs = [EvCall (OpUpdate rules)] \/
     exists b res,
       evs = [EvCall (OpUpdate rules); EvHTTP (updateRequest config b) res]).
Proof.
  rewrite updateUserRules_run.
  destruct (json_Marshal rules) as [b |];
    [destruct (url_valid _) |];
    do 3 eexists; (split; [reflexivity |]); simpl.
  - rewrite <- app_assoc. simpl. repeat split. right.
    do 2 eexists. reflexivity.
  - repeat split. now left.
  - repeat split. now left.
Qed.

(** A cycle always returns; it does not touch the health flags; what it
    adds to the trace is the trace of one cycle. *)
Lemma enforceRulePosition_frame (config : Config) (s : St W) :
  exists e s1 evs,
    enforceRulePosition config s = Some (e, s1) /\
    trace s1 = trace s ++ evs /\
    healthy s1 = healthy s /\ lastCheckOK s1 = lastCheckOK s /\
    oneCycle evs /\ errorsLogged evs = [].
Proof.
  rewrite enforceRulePosition_decide.
  destruct (fetchUserRules_frame config s)
    as (r & s1 & evs1 & -> & Ht1 & Hh1 & Hl1 & Hshape1).
  assert (Hc1 : fetchCalls evs1 = 1%nat /\ written evs1 = [] /\
                (exchanges "GET" evs1 <= 1)%nat /\
                exchanges "POST" evs1 = 0%nat /\
                ticksReceived evs1 = 0%nat /\ tickerPeriods evs1 = [] /\
                errorsLogged evs1 = []).
  { destruct Hshape1 as [-> | [res ->]]; simpl; repeat split; lia. }
  destruct Hc1 as (F1 & W1 & G1 & P1 & T1 & K1 & E1).
  destruct r as [rules | e].
  2:{ do 3 eexists. split; [reflexivity |]. unfold oneCycle.
      rewrite W1, P1. simpl. repeat split; auto; lia. }
  pose proof (decide_total rules (TargetRule config)) as Hd.
  destruct (decide rules (TargetRule config)) as [[| newList] |];
    [| | congruence].
  - do 3 eexists. split; [reflexivity |]. simpl. rewrite Ht1.
    rewrite <- !app_assoc. split; [reflexivity |].
    unfold oneCycle.
    rewrite fetchCalls_app, written_app, !exchanges_app,
      ticksReceived_app, tickerPeriods_app, errorsLogged_app.
    rewrite F1, W1, P1, T1, K1, E1. simpl. repeat split; auto; lia.
  - match goal with
    | |- context [updateUserRules config newList ?s0] =>
      destruct (updateUserRules_frame config newList s0)
        as (e & s2 & evs2 & -> & Ht2 & Hh2 & Hl2 & Hshape2)
    end.
    simpl in Ht2, Hh2, Hl2.
    assert (Hc2 : fetchCalls evs2 = 0%nat /\
                  (List.length (written evs2) <= 1)%nat /\
                  exchanges "GET" evs2 = 0%nat /\
                  (exchanges "POST" evs2 <= 1)%nat /\
                  ticksReceived evs2 = 0%nat /\ tickerPeriods evs2 = [] /\
                  errorsLogged evs2 = []).
    { destruct Hshape2 as [-> | (b & res & ->)]; simpl; repeat split; lia. }
    destruct Hc2 as (F2 & W2 & G2 & P2 & T2 & K2 & E2).
    destruct e as [e |]; do 3 eexists; (split; [reflexivity |]); simpl;
      rewrite Ht2, Ht1, <- !app_assoc; (split; [reflexivity |]);
      unfold oneCycle;
      rewrite ?fetchCalls_app, ?written_app, ?exchanges_app,
        ?ticksReceived_app, ?tickerPeriods_app, ?errorsLogged_app,
        ?length_app;
      rewrite F1, W1, P1, T1, K1, E1, F2, G2, T2, K2, E2; simpl;
      repeat split; try congruence; try lia.
Qed.

(** The first thing a cycle does is to enter the fetch. *)
Lemma enforceRulePosition_first_event (config : Config) (s s1 : St W)
      (e : option error) :
  enforceRulePosition config s = Some (e, s1) ->
  exists rest, trace s1 = trace s ++ EvCall OpFetch :: rest.
Proof.
  rewrite enforceRulePosition_decide.
  destruct (fetchUserRules_frame config s)
    as (r & s0 & evs0 & -> & Ht0 & _ & _ & Hshape).
  assert (Hpre : exists rest0, trace s0 = trace s ++ EvCall OpFetch :: rest0)
    by (destruct Hshape as [-> | [res ->]]; eexists; exact Ht0).
  destruct Hpre as [rest0 Hpre].
  destruct r as [rules | x].
  - pose proof (decide_total rules (TargetRule config)) as Hdt.
    destruct (decide rules (TargetRule config)) as [[| newList] |];
      [| | congruence].
    + intros [= _ <-]. simpl. rewrite Hpre, <- !app_assoc.
      eexists. reflexivity.
    + match goal with
      | |- context [updateUserRules config newList ?s2] =>
        destruct (updateUserRules_frame config newList s2)
          as (x & s3 & evs3 & -> & Ht3 & _)
      end.
      simpl in Ht3.
      destruct x as [x |]; intros [= _ <-]; simpl;
        rewrite Ht3, Hpre, <- !app_assoc; eexists; reflexivity.
  - intros [= _ <-]. exists rest0. exact Hpre.
Qed.

(** ** The ticker loop *)

Lemma check_frame (onError : error -> LogLine) (config : Config)
      (s : St W) :
  exists s' evs,
    check onError config s = Some (tt, s') /\
    trace s' = trace s ++ evs /\
    healthy s' = healthy s /\
    oneCycle evs.
Proof.
  rewrite check_run.
  destruct (enforceRulePosition_frame config s)
    as (e & s1 & evs & -> & Ht & Hh & _ & Hc & _).
  destruct e as [e |]; do 2 eexists; (split; [reflexivity |]); simpl.
  - rewrite Ht, <- app_assoc. split; [reflexivity | split; [exact Hh |]].
    destruct Hc as (F & Wr & G & P & T & K). unfold oneCycle.
    rewrite fetchCalls_app, written_app, !exchanges_app,
      ticksReceived_app, tickerPeriods_app, length_app.
    rewrite F, T, K. simpl. repeat split; lia.
  - split; [exact Ht | split; assumption].
Qed.

(** After a tick and its cycle, however the cycle ended, the loop goes
    on with the ticks that remain. *)
Lemma tickerLoop_next (config : Config) (n : nat) (s : St W) :
  exists s1,
    check LogEnforceError config (push EvTick s) = Some (tt, s1) /\
    tickerLoop config (S n) s = tickerLoop config n s1.
Proof.
  destruct (check_frame LogEnforceError config (push EvTick s))
    as (s1 & evs & Hc & _).
  exists s1. split; [exact Hc |].
  simpl. unfold bind, emit. now rewrite Hc.
Qed.

Lemma tickerLoop_frame (config : Config) (n : nat) :
  forall s : St W,
  exists s' evs,
    tickerLoop config n s = Some (tt, s') /\
    trace s' = trace s ++ evs /\
    healthy s' = healthy s /\
    ticksReceived evs = n /\
    fetchCalls evs = n /\
    (List.length (written evs) <= n)%nat /\
    (exchanges "GET" evs <= n)%nat /\
    (exchanges "POST" evs <= n)%nat /\
    tickerPeriods evs = [].
Proof.
  induction n as [| n IH]; intro s.
  - exists s, []. simpl. rewrite app_nil_r. repeat split; lia.
  - destruct (tickerLoop_next config n s) as (s1 & Hc & ->).
    destruct (check_frame LogEnforceError config (push EvTick s))
      as (s1' & evs1 & Hc' & Ht1 & Hh1 & F & Wr & G & P & T & K).
    rewrite Hc in Hc'. injection Hc' as <-.
    destruct (IH s1) as (s' & evs & -> & Ht & Hh & T' & F' & W' & G' & P' & K').
    exists s', (EvTick :: evs1 ++ evs). split; [reflexivity |].
    split.
    { rewrite Ht, Ht1. simpl. rewrite <- !app_assoc. reflexivity. }
    split; [now rewrite Hh, Hh1 |].
    simpl.
    rewrite fetchCalls_app, written_app, !exchanges_app,
      ticksReceived_app, tickerPeriods_app, length_app.
    rewrite F, T, K, T', F', K'. simpl. repeat split; lia.
Qed.


(** [time.NewTicker] with a positive and with a non-positive period. *)
Lemma NewTicker_positive (d : Z) (s : St W) :
  0 < d -> NewTicker d s = Some (tt, push (EvNewTicker d) s).
Proof.
  intro H. unfold NewTicker, emit.
  destruct (Z.leb_spec d 0); [lia | reflexivity].
Qed.

Lemma NewTicker_panics (d : Z) (s : St W) : d <= 0 -> NewTicker d s = None.
Proof.
  intro H. unfold NewTicker. destruct (Z.leb_spec d 0); [reflexivity | lia].
Qed.

(** With a positive period [main] reaches its first cycle, in the state
    its four startup statements leave. *)
Lemma main_startup (config : Config) (ticks : nat) (s : St W) :
  0 < CheckInterval config ->
  main config ticks s =
  (check LogInitialError config ;; tickerLoop config ticks)
    (push (EvNewTicker (CheckInterval config))
       (push (EvGo (HealthPort config))
          (push (EvLog (LogConfigLoaded (AdGuardURL config)
                                        (TargetRule config)
                                        (CheckInterval config)))
             (push (EvLog LogStarting) s)))).
Proof.
  intro H. unfold main, bind at 1 2 3 4, log, emit.
  rewrite NewTicker_positive by assumption. reflexivity.
Qed.

(** With a period that is not positive [main] panics in
    [time.NewTicker], before its first cycle. *)
Lemma main_panics (config : Config) (ticks : nat) (s : St W) :
  CheckInterval config <= 0 -> main config ticks s = None.
Proof.
  intro H. unfold main, bind at 1 2 3 4, log, emit.
  rewrite NewTicker_panics by assumption. reflexivity.
Qed.

Lemma main_returns_positive (config : Config) (ticks : nat) (s s' : St W) :
  main config ticks s = Some (tt, s') -> 0 < CheckInterval config.
Proof.
  intro H. destruct (Z.lt_ge_cases 0 (CheckInterval config)) as [Hp | Hn];
    [exact Hp |].
  rewrite main_panics in H by lia. discriminate.
Qed.

Lemma main_frame (config : Config) (ticks : nat) (s : St W) :
  0 < CheckInterval config ->
  exists s' evs,
    main config ticks s = Some (tt, s') /\
    trace s' = trace s ++ evs /\
    healthy s' = healthy s /\
    ticksReceived evs = ticks /\
    fetchCalls evs = S ticks /\
    (List.length (written evs) <= S ticks)%nat /\
    (exchanges "GET" evs <= S ticks)%nat /\
    (exchanges "POST" evs <= S ticks)%nat /\
    tickerPeriods evs = [CheckInterval config].
Proof.
  intro Hpos. rewrite main_startup by assumption. unfold bind.
  match goal with
  | |- context [check LogInitialError config ?s0] =>
    destruct (check_frame LogInitialError config s0)
      as (s1 & evs1 & -> & Ht1 & Hh1 & F & Wr & G & P & T & K)
  end.
  simpl in Ht1, Hh1.
  destruct (tickerLoop_frame config ticks s1)
    as (s' & evs & -> & Ht & Hh & T' & F' & W' & G' & P' & K').
  do 2 eexists. split; [reflexivity |].
  split.
  { rewrite Ht, Ht1, <- !app_assoc. simpl. reflexivity. }
  split; [now rewrite Hh, Hh1 |].
  simpl.
  rewrite fetchCalls_app, written_app, !exchanges_app,
    ticksReceived_app, tickerPeriods_app, length_app.
  rewrite F, T, K, T', F', K'. simpl. repeat split; lia.
Qed.


(** Closes the case analyses on the outcome of an exchange. *)
Ltac settle_outcomes :=
  repeat split; intros;
  repeat match goal with
         | H : exists _, _ |- _ => destruct H
         | H : _ /\ _ |- _ => destruct H
         | H : Some _ = Some _ |- _ => injection H as H
         | H : DoResponse _ = DoResponse _ |- _ => injection H as H
         | H : ok _ = ok _ |- _ => injection H as H
         | H : err _ = err _ |- _ => injection H as H
         end;
  subst; simpl in *;
  try discriminate; try congruence;
  try (match goal with H : _ \/ _ |- _ => destruct H end; congruence);
  try (do 2 eexists; repeat split; eauto; fail);
  try (eexists; repeat split; eauto; fail).

(** ** The remote list client *)

(** C6.  [fetchUserRules] returns the decoded list when the response has
    status 200 and a decodable body; it fails with a protocol error
    exactly when a response came whose status is not 200 or whose body
    cannot be decoded, and with a transport error exactly when
    [client.Do] failed.  [updateUserRules] returns [nil] exactly when a
    response with status 200 came, a protocol error exactly when a
    response with another status came, and a transport error exactly
    when [client.Do] failed. *)
Theorem client_outcomes (config : Config) (rules : list string) (s : St W) :
  (exists r s1,
      fetchUserRules config s = Some (r, s1) /\
      (forall L,
          r = ok L <->
          exists resp status,
            fetchExchange config s = Some (DoResponse resp) /\
            StatusCode resp = StatusOK /\
            json_Decode (Body resp) = Some status /\
            L = UserRules status) /\
      (failsWith r ProtocolError <->
       exists resp,
         fetchExchange config s = Some (DoResponse resp) /\
         (StatusCode resp <> StatusOK \/ json_Decode (Body resp) = None)) /\
      (failsWith r TransportError <->
       exists cause, fetchExchange config s = Some (DoFailed cause))) /\
  (exists e s2,
      updateUserRules config rules s = Some (e, s2) /\
      (e = None <->
       exists resp,
         updateExchange config rules s = Some (DoResponse resp) /\
         StatusCode resp = StatusOK) /\
      (returnsError e ProtocolError <->
       exists resp,
         updateExchange config rules s = Some (DoResponse resp) /\
         StatusCode resp <> StatusOK) /\
      (returnsError e TransportError <->
       exists cause,
         updateExchange config rules s = Some (DoFailed cause))).
Proof.
  split.
  - rewrite fetchUserRules_run. unfold fetchExchange, failsWith.
    destruct (url_valid _);
      [destruct (client_Do (fetchRequest config) (net s))
         as [[cause | resp] w'];
       simpl fst; simpl fetchResult;
       [| destruct (Z.eqb_spec (StatusCode resp) StatusOK) as [Hs | Hs];
          [destruct (json_Decode (Body resp)) as [status |] eqn:Hd |]] |];
      do 2 eexists; (split; [reflexivity |]); settle_outcomes.
  - rewrite updateUserRules_run. unfold updateExchange, returnsError.
    simpl net.
    destruct (json_Marshal rules) as [b |];
      [destruct (url_valid _);
       [destruct (client_Do (updateRequest config b) (net s))
          as [[cause | resp] w'];
        simpl fst; simpl updateResult;
        [| destruct (Z.eqb_spec (StatusCode resp) StatusOK) as [Hs | Hs]] |] |];
      do 2 eexists; (split; [reflexivity |]); settle_outcomes.
Qed.

(** ** The health server *)

Lemma healthz_ok_iff (s : St W) :
  healthz s = {| StatusCode := StatusOK; Body := "OK" |} <->
  healthy s = true /\ lastCheckOK s = true.
Proof.
  unfold healthz.
  destruct (healthy s), (lastCheckOK s); simpl; split;
    try (intros [? ?]); try discriminate; auto.
Qed.

(** C8.  In every health state the liveness probe answers 200 "OK"
    exactly when both flags are set, and 503 "UNHEALTHY" otherwise; the
    readiness probe answers 200 "READY" whatever the flags; and after a
    cycle of the loop the flag [lastCheckOK] is set exactly when that
    cycle returned no error. *)
Theorem probes_report_health (s : St W) :
  (healthz s = {| StatusCode := StatusOK; Body := "OK" |} <->
   healthy s = true /\ lastCheckOK s = true) /\
  (healthz s = {| StatusCode := StatusServiceUnavailable;
                  Body := "UNHEALTHY" |} <->
   healthy s = false \/ lastCheckOK s = false) /\
  (StatusCode (healthz s) = StatusOK <->
   healthy s = true /\ lastCheckOK s = true) /\
  readyz s = {| StatusCode := StatusOK; Body := "READY" |} /\
  (forall (onError : error -> LogLine) (config : Config) (s' : St W),
      check onError config s = Some (tt, s') ->
      healthy s' = healthy s /\
      (lastCheckOK s' = true <->
       exists s1, enforceRulePosition config s = Some (None, s1))).
Proof.
  split; [apply healthz_ok_iff |].
  split.
  { unfold healthz. destruct (healthy s), (lastCheckOK s); simpl; split;
      try (intros [? | ?]); try discriminate; auto. }
  split.
  { unfold healthz. destruct (healthy s), (lastCheckOK s); simpl; split;
      try (intros [? ?]); try discriminate; auto. }
  split; [reflexivity |].
  intros onError config s'. rewrite check_run.
  destruct (enforceRulePosition_frame config s)
    as (e & s1 & evs & -> & _ & Hh & _).
  destruct e as [e |]; intros [= <-]; simpl; (split; [exact Hh |]); split;
    try discriminate; eauto.
  intros (? & H). discriminate H.
Qed.


(** C10.  Both flags start as [true], and [main], whose ticker period
    is positive, spawns the health server before its first cycle: from
    the spawn until the first cycle has returned, whatever its outcome,
    the flags are still [true] and the liveness probe answers 200
    "OK". *)
Theorem healthy_before_first_cycle (config : Config) (w : W) :
  0 < CheckInterval config ->
  healthy (initial w) = true /\
  lastCheckOK (initial w) = true /\
  healthz (initial w) = {| StatusCode := StatusOK; Body := "OK" |} /\
  exists s0 : St W,
    trace s0 = [EvLog LogStarting;
                EvLog (LogConfigLoaded (AdGuardURL config)
                                       (TargetRule config)
                                       (CheckInterval config));
                EvGo (HealthPort config);
                EvNewTicker (CheckInterval config)] /\
    (forall ticks,
        main config ticks (initial w) =
        (check LogInitialError config ;; tickerLoop config ticks) s0) /\
    healthz s0 = {| StatusCode := StatusOK; Body := "OK" |} /\
    (forall s', startHealthServer (HealthPort config) None s0
                = Some (tt, s') ->
                healthz s' = {| StatusCode := StatusOK; Body := "OK" |}) /\
    exists e s1 evs,
      enforceRulePosition config s0 = Some (e, s1) /\
      trace s1 = trace s0 ++ EvCall OpFetch :: evs /\
      healthz s1 = {| StatusCode := StatusOK; Body := "OK" |}.
Proof.
  intro Hpos.
  repeat (split; [reflexivity |]).
  eexists.
  split; [| split; [intro ticks; apply main_startup; exact Hpos |]].
  { reflexivity. }
  split; [reflexivity |].
  split. { intros s' [= <-]. reflexivity. }
  match goal with
  | |- context [enforceRulePosition config ?s0] =>
    destruct (enforceRulePosition_frame config s0)
      as (e & s1 & evs & He & _ & Hh & Hl & _);
    destruct (enforceRulePosition_first_event config s0 He) as [rest Ht]
  end.
  exists e, s1, rest. split; [exact He |]. split; [exact Ht |].
  apply healthz_ok_iff. rewrite Hh, Hl. split; reflexivity.
Qed.

(** ** A cycle whose list already ends in the target *)

Lemma fetchUserRules_ok_inv (config : Config) (s s1 : St W)
      (L : list string) :
  fetchUserRules config s = Some (ok L, s1) ->
  exists resp status,
    client_Do (fetchRequest config) (net s) = (DoResponse resp, net s1) /\
    StatusCode resp = StatusOK /\
    json_Decode (Body resp) = Some status /\
    UserRules status = L /\
    trace s1 = trace s ++ [EvCall OpFetch;
                           EvHTTP (fetchRequest config) (DoResponse resp)].
Proof.
  rewrite fetchUserRules_run.
  destruct (url_valid _); [| discriminate].
  destruct (client_Do (fetchRequest config) (net s))
    as [[cause | resp] w'] eqn:E; simpl; [discriminate |].
  destruct (Z.eqb_spec (StatusCode resp) StatusOK) as [Hs | Hs];
    [| discriminate].
  destruct (json_Decode (Body resp)) as [status |] eqn:Hd; [| discriminate].
  intros [= <- <-]. exists resp, status. simpl.
  rewrite <- app_assoc. repeat split; auto.
Qed.

Lemma updateUserRules_ok_inv (config : Config) (rules : list string)
      (s s2 : St W) :
  updateUserRules config rules s = Some (None, s2) ->
  exists b resp,
    json_Marshal rules = Some b /\
    client_Do (updateRequest config b) (net s) = (DoResponse resp, net s2) /\
    StatusCode resp = StatusOK /\
    trace s2 = trace s ++ [EvCall (OpUpdate rules);
                           EvHTTP (updateRequest config b) (DoResponse resp)].
Proof.
  rewrite updateUserRules_run.
  destruct (json_Marshal rules) as [b |]; [| discriminate].
  destruct (url_valid _); [| discriminate]. simpl net.
  destruct (client_Do (updateRequest config b) (net s))
    as [[cause | resp] w'] eqn:E; simpl; [discriminate |].
  destruct (Z.eqb_spec (StatusCode resp) StatusOK) as [Hs | Hs];
    [| discriminate].
  intros [= <-]. exists b, resp. simpl.
  rewrite <- app_assoc. repeat split; auto.
Qed.

(** The two ways a cycle returns [nil]. *)
Lemma enforceRulePosition_ok_inv (config : Config) (s s' : St W) :
  enforceRulePosition config s = Some (None, s') ->
  exists L s1,
    fetchUserRules config s = Some (ok L, s1) /\
    ((last_rule L = Some (TargetRule config) /\
      net s' = net s1 /\
      trace s' = trace s1 ++ [EvLog (LogFetched (Slice.len L));
                              EvLog LogNoAction])
     \/
     (last_rule L <> Some (TargetRule config) /\
      exists s2 L',
        L' = without (TargetRule config) L ++ [TargetRule config] /\
        updateUserRules config L'
          (push (EvLog (LogMoving (Slice.len L') (Slice.len L')))
                (push (EvLog (LogFetched (Slice.len L))) s1))
        = Some (None, s2) /\
        net s' = net s2 /\
        trace s' = trace s2 ++ [EvLog LogUpdated])).
Proof.
  rewrite enforceRulePosition_decide.
  destruct (fetchUserRules config s) as [[[L | e] s1] |];
    try discriminate.
  destruct (decide L (TargetRule config)) as [[| newList] |] eqn:Hd;
    [| | discriminate].
  - intros [= <-]. exists L, s1. split; [reflexivity |]. left.
    apply decide_NoOp_iff in Hd. split; [exact Hd |].
    split; [reflexivity |]. simpl. now rewrite <- app_assoc.
  - apply decide_Reorder_iff in Hd. destruct Hd as [Hlast ->].
    match goal with
    | |- context [updateUserRules config ?l ?s0] =>
      destruct (updateUserRules config l s0) as [[[e |] s2] |] eqn:Hu
    end; try discriminate.
    intros [= <-]. exists L, s1. split; [reflexivity |]. right.
    split; [exact Hlast |]. exists s2. eexists.
    split; [reflexivity |]. split; [exact Hu |]. split; reflexivity.
Qed.

(** C3.  When the fetched list ends in the target, compared byte for
    byte, it is not empty, the decision is [NoOp], and the cycle returns
    [nil] having logged two lines and nothing else: it makes no write
    and leaves the world as the fetch left it. *)
Theorem target_at_bottom_is_noop (L : list string) (T : string) :
  last_rule L = Some T ->
  L <> [] /\
  isRuleAtBottom L T = Some true /\
  decide L T = Some NoOp /\
  forall (config : Config) (s s1 : St W),
    TargetRule config = T ->
    fetchUserRules config s = Some (ok L, s1) ->
    exists s' evs,
      enforceRulePosition config s = Some (None, s') /\
      net s' = net s1 /\
      trace s' = trace s1 ++ [EvLog (LogFetched (Slice.len L));
                              EvLog LogNoAction] /\
      trace s' = trace s ++ evs /\
      written evs = [] /\
      exchanges "POST" evs = 0%nat.
Proof.
  intro Hlast.
  split. { intros ->. discriminate Hlast. }
  split. { now apply isRuleAtBottom_true_iff. }
  split. { now apply decide_NoOp_iff. }
  intros config s s1 <- Hf.
  rewrite enforceRulePosition_decide, Hf.
  apply decide_NoOp_iff in Hlast. rewrite Hlast.
  apply fetchUserRules_ok_inv in Hf.
  destruct Hf as (resp & status & _ & _ & _ & _ & Ht).
  do 2 eexists. split; [reflexivity |]. split; [reflexivity |].
  simpl. rewrite Ht, <- !app_assoc. simpl.
  split; [reflexivity |]. split; [reflexivity |]. split; reflexivity.
Qed.

(** Equality is exact: a last element that differs from the target in
    case or by a trailing blank is not the target. *)
Example case_is_not_folded :
  decide ["rule1"; "Target"] "target"
  = Some (Reorder ["rule1"; "Target"; "target"]).
Proof. reflexivity. Qed.

Example blanks_are_not_trimmed :
  decide ["rule1"; "target "] "target"
  = Some (Reorder ["rule1"; "target "; "target"]).
Proof. reflexivity. Qed.

End ProgramFacts.

(* ===================================================================== *)
(** * The remote list after a cycle *)
(* ===================================================================== *)

Section StoreFacts.

Context {W : Type} {R : GoRuntime W}.
Variable stored : W -> list string.
Context {F : FaithfulStore R stored}.

Lemma fetch_keeps_store (config : Config) (s s1 : St W)
      (r : result (list string)) :
  fetchUserRules config s = Some (r, s1) ->
  stored (net s1) = stored (net s).
Proof.
  rewrite fetchUserRules_run.
  destruct (url_valid _); intros [= _ <-]; [| reflexivity]. simpl.
  destruct (client_Do (fetchRequest config) (net s)) as [res w'] eqn:E.
  simpl. eapply get_keeps; [| exact E]. reflexivity.
Qed.

Lemma fetch_observes_store (config : Config) (s s1 : St W)
      (L : list string) :
  fetchUserRules config s = Some (ok L, s1) ->
  L = stored (net s) /\ stored (net s1) = stored (net s).
Proof.
  intro Hf. split; [| now apply fetch_keeps_store in Hf].
  apply fetchUserRules_ok_inv in Hf.
  destruct Hf as (resp & status & Hdo & Hs & Hd & <- & _).
  eapply get_observes; [| exact Hdo | exact Hs | exact Hd]. reflexivity.
Qed.

Lemma update_replaces_store (config : Config) (rules : list string)
      (s s2 : St W) :
  updateUserRules config rules s = Some (None, s2) ->
  stored (net s2) = rules.
Proof.
  intro Hu. apply updateUserRules_ok_inv in Hu.
  destruct Hu as (b & resp & Hm & Hdo & Hs & _).
  eapply post_replaces; [| exact Hdo | exact Hs | |]; simpl;
    congruence.
Qed.

Lemma success_leaves_target_last (config : Config) (s s' : St W) :
  enforceRulePosition config s = Some (None, s') ->
  last_rule (stored (net s')) = Some (TargetRule config).
Proof.
  intro He. apply enforceRulePosition_ok_inv in He.
  destruct He as (L & s1 & Hf &
                  [(Hlast & Hn & _) | (_ & s2 & L' & -> & Hu & Hn & _)]).
  - apply fetch_observes_store in Hf. destruct Hf as [-> Hk].
    now rewrite Hn, Hk.
  - apply update_replaces_store in Hu. rewrite Hn, Hu.
    apply last_rule_snoc.
Qed.

(** A cycle that starts with the target stored last makes no write and
    leaves the store as it is, whether or not it succeeds. *)
Lemma settled_cycle_is_quiet (config : Config) (s s' : St W)
      (e : option error) :
  last_rule (stored (net s)) = Some (TargetRule config) ->
  enforceRulePosition config s = Some (e, s') ->
  stored (net s') = stored (net s) /\
  exists evs,
    trace s' = trace s ++ evs /\
    written evs = [] /\
    exchanges "POST" evs = 0%nat.
Proof.
  intros Hlast. rewrite enforceRulePosition_decide.
  destruct (fetchUserRules_frame config s)
    as (r & s1 & evs1 & Hf & Ht1 & _ & _ & Hshape).
  rewrite Hf.
  assert (Hq : written evs1 = [] /\ exchanges "POST" evs1 = 0%nat)
    by (destruct Hshape as [-> | [res ->]]; split; reflexivity).
  destruct Hq as [Hw Hp].
  destruct r as [L | x].
  - apply fetch_observes_store in Hf. destruct Hf as [-> Hk].
    apply decide_NoOp_iff in Hlast. rewrite Hlast.
    intros [= <- <-]. split; [exact Hk |].
    eexists. simpl. rewrite Ht1, <- !app_assoc.
    split; [reflexivity |].
    rewrite written_app, exchanges_app, Hw, Hp. split; reflexivity.
  - apply fetch_keeps_store in Hf.
    intros [= <- <-]. split; [exact Hf |].
    exists evs1. auto.
Qed.

(** C1.  A cycle that returns [nil] fetched a list [L] and either made no
    write, [L] ending in the target already, or handed to the write one
    list, which ends in the target and is what the store now holds.
    Either way the stored list ends in the target, and so does the list
    of the next fetch that succeeds. *)
Theorem successful_cycle_leaves_target_last
        (config : Config) (s s' : St W) :
  enforceRulePosition config s = Some (None, s') ->
  (exists L s1 evs,
      fetchUserRules config s = Some (ok L, s1) /\
      trace s' = trace s ++ evs /\
      ((last_rule L = Some (TargetRule config) /\
        written evs = [] /\
        exchanges "POST" evs = 0%nat /\
        stored (net s') = L)
       \/
       (last_rule L <> Some (TargetRule config) /\
        exists L',
          written evs = [L'] /\
          last_rule L' = Some (TargetRule config) /\
          stored (net s') = L'))) /\
  last_rule (stored (net s')) = Some (TargetRule config) /\
  (forall L2 s2,
      fetchUserRules config s' = Some (ok L2, s2) ->
      last_rule L2 = Some (TargetRule config)).
Proof.
  intro He.
  pose proof (success_leaves_target_last config s He) as Hstored.
  split; [| split; [exact Hstored |]].
  - apply enforceRulePosition_ok_inv in He.
    destruct He as (L & s1 & Hf &
                    [(Hlast & Hn & Ht) |
                     (Hlast & s2 & L' & -> & Hu & Hn & Ht)]).
    + exists L, s1. pose proof Hf as Hf'.
      apply fetchUserRules_ok_inv in Hf'.
      destruct Hf' as (resp & status & _ & _ & _ & _ & Ht1).
      destruct (fetch_observes_store config s Hf) as [HL Hk].
      eexists. split; [exact Hf |].
      rewrite Ht, Ht1, <- !app_assoc. split; [reflexivity |].
      left. simpl. repeat split; try assumption.
      now rewrite Hn, Hk.
    + exists L, s1. pose proof Hf as Hf'.
      apply fetchUserRules_ok_inv in Hf'.
      destruct Hf' as (resp & status & _ & _ & _ & _ & Ht1).
      pose proof Hu as Hu'. apply updateUserRules_ok_inv in Hu'.
      destruct Hu' as (b & resp2 & _ & _ & _ & Ht2). simpl in Ht2.
      apply update_replaces_store in Hu.
      eexists. split; [exact Hf |].
      rewrite Ht, Ht2, Ht1, <- !app_assoc. split; [reflexivity |].
      right. split; [exact Hlast |]. eexists. simpl.
      split; [reflexivity |]. split; [apply last_rule_snoc |].
      now rewrite Hn.
  - intros L2 s2 Hf2. apply fetch_observes_store in Hf2.
    destruct Hf2 as [-> _]. exact Hstored.
Qed.

(** C4.  When the decision on [L] is [Reorder L'], the decision on [L'] is
    [NoOp]; and the cycle that follows a successful one, nothing else
    having written, makes no write and leaves the store as it is. *)
Theorem second_cycle_is_noop :
  (forall (L : list string) (T : string) (L' : list string),
      decide L T = Some (Reorder L') -> decide L' T = Some NoOp) /\
  (forall (config : Config) (s s' : St W),
      enforceRulePosition config s = Some (None, s') ->
      exists e s'' evs,
        enforceRulePosition config s' = Some (e, s'') /\
        trace s'' = trace s' ++ evs /\
        written evs = [] /\
        exchanges "POST" evs = 0%nat /\
        stored (net s'') = stored (net s') /\
        (forall L2 s2,
            fetchUserRules config s' = Some (ok L2, s2) -> e = None)).
Proof.
  split.
  - intros L T L' H. apply decide_Reorder_iff in H. destruct H as [_ ->].
    apply decide_NoOp_iff, last_rule_snoc.
  - intros config s s' He.
    apply success_leaves_target_last in He.
    destruct (enforceRulePosition_frame config s')
      as (e & s'' & evs0 & He2 & _).
    destruct (settled_cycle_is_quiet config s' He He2)
      as (Hk & evs & Ht & Hw & Hp).
    exists e, s'', evs. repeat split; try assumption.
    intros L2 s2 Hf2. rewrite enforceRulePosition_decide, Hf2 in He2.
    apply fetch_observes_store in Hf2. destruct Hf2 as [-> _].
    apply decide_NoOp_iff in He. rewrite He in He2. congruence.
Qed.

End StoreFacts.

(* ===================================================================== *)
(** * The simulated server *)
(* ===================================================================== *)

Module SimFacts.

Lemma append_nil_r (s : string) : String.append s EmptyString = s.
Proof. induction s as [| c s IH]; simpl; congruence. Qed.

Lemma append_assoc (a b c : string) :
  String.append (String.append a b) c = String.append a (String.append b c).
Proof. induction a as [| x a IH]; simpl; congruence. Qed.

Lemma append_snoc (cur : string) (c : ascii) (x : string) :
  String.append (Sim.snoc cur c) x = String.append cur (String c x).
Proof. unfold Sim.snoc. now rewrite append_assoc. Qed.

(** Scanning a quoted string gives the string back. *)
Lemma scan_string (x : string) :
  forall (cur : string) (acc : list string) (rest : string),
    Sim.scan (Sim.InString cur) acc
             (String.append (Sim.escape x) (String Sim.dquote rest))
    = Sim.scan Sim.AfterString (String.append cur x :: acc) rest.
Proof.
  induction x as [| c x IH]; intros cur acc rest.
  - simpl. now rewrite append_nil_r.
  - cbn [Sim.escape].
    destruct (Ascii.eqb c Sim.dquote) eqn:Eq;
      [| destruct (Ascii.eqb c Sim.backslash) eqn:Eb];
      cbn [orb String.append Sim.scan].
    + change (Ascii.eqb Sim.backslash Sim.dquote) with false.
      change (Ascii.eqb Sim.backslash Sim.backslash) with true.
      cbn iota. rewrite IH, append_snoc. reflexivity.
    + change (Ascii.eqb Sim.backslash Sim.dquote) with false.
      change (Ascii.eqb Sim.backslash Sim.backslash) with true.
      cbn iota. rewrite IH, append_snoc. reflexivity.
    + rewrite Eq, Eb. rewrite IH, append_snoc. reflexivity.
Qed.

Lemma scan_quote (x : string) (acc : list string) (rest : string) :
  exists body,
    Sim.quote x rest = String Sim.dquote body /\
    Sim.scan (Sim.InString EmptyString) acc body
    = Sim.scan Sim.AfterString (x :: acc) rest.
Proof. eexists. split; [reflexivity |]. apply scan_string. Qed.

Lemma scan_more (l : list string) :
  forall (acc : list string) (rest : string),
    Sim.scan Sim.AfterString acc (Sim.moreElems l rest)
    = Some (rev acc ++ l, rest).
Proof.
  induction l as [| x l IH]; intros acc rest.
  - simpl. now rewrite app_nil_r.
  - cbn [Sim.moreElems Sim.scan].
    change (Ascii.eqb "," ",") with true. cbn iota.
    unfold Sim.quote. cbn [Sim.scan].
    change (Ascii.eqb Sim.dquote Sim.dquote) with true. cbn iota.
    rewrite scan_string, IH. simpl. now rewrite <- app_assoc.
Qed.

Lemma scan_array (l : list string) (rest : string) :
  exists body,
    Sim.array l rest = String "[" body /\
    Sim.scan Sim.AtStart [] body = Some (l, rest).
Proof.
  destruct l as [| x l]; eexists; (split; [reflexivity |]).
  - reflexivity.
  - unfold Sim.quote. cbn [Sim.scan].
    change (Ascii.eqb Sim.dquote "]") with false.
    change (Ascii.eqb Sim.dquote Sim.dquote) with true. cbn iota.
    rewrite scan_string, scan_more. reflexivity.
Qed.

Lemma stripPrefix_append (p s : string) :
  Sim.stripPrefix p (String.append p s) = Some s.
Proof.
  induction p as [| c p IH]; simpl; [now destruct s |].
  now rewrite Ascii.eqb_refl.
Qed.

(** Decoding an encoded list gives the list back. *)
Lemma decode_encode (key : string) (l : list string) :
  Sim.decode key (Sim.encode key l) = Some l.
Proof.
  unfold Sim.decode, Sim.encode.
  destruct (scan_array l "}") as (body & -> & Hscan).
  replace (String "{" (Sim.quote key (String ":" (String "[" body))))
    with (String.append
            (String "{" (Sim.quote key (String ":" (String "[" EmptyString))))
            body).
  - rewrite stripPrefix_append, Hscan. reflexivity.
  - unfold Sim.quote. simpl. rewrite append_assoc. reflexivity.
Qed.

(** The simulated server is a faithful store with one writer. *)
Lemma faithful : FaithfulStore Sim.runtime Sim.store.
Proof.
  constructor.
  - intros req w resp w' status Hm. simpl. unfold Sim.exchange.
    destruct (Sim.nextFault w) as [[| cause | code |] fs].
    + unfold Sim.serve. rewrite Hm. simpl.
      intros [= <- _] _. simpl. rewrite decode_encode.
      intros [= <-]. reflexivity.
    + discriminate.
    + intros [= <- _]. simpl.
      destruct (Z.eqb_spec code 200); unfold StatusOK; congruence.
    + rewrite Hm. intros [= <- _] _. simpl. discriminate.
  - intros req w res w' Hm. simpl. unfold Sim.exchange.
    destruct (Sim.nextFault w) as [[| cause | code |] fs];
      try (intros [= _ <-]; reflexivity).
    unfold Sim.serve. rewrite Hm. simpl. intros [= _ <-]. reflexivity.
  - intros req w resp w' rules Hm. simpl. unfold Sim.exchange.
    destruct (Sim.nextFault w) as [[| cause | code |] fs].
    + unfold Sim.serve. rewrite Hm. simpl.
      destruct (ReqBody req) as [b |]; [| congruence].
      intros Hdo Hs [= ->] _. rewrite decode_encode in Hdo.
      injection Hdo as _ <-. reflexivity.
    + discriminate.
    + intros [= <- _]. simpl.
      destruct (Z.eqb_spec code 200); unfold StatusOK; congruence.
    + rewrite Hm. intros [= <- _]. simpl. discriminate.
Qed.

End SimFacts.

(* ===================================================================== *)
(** * Runs against the simulated server *)
(* ===================================================================== *)

(** The target in the middle: one cycle moves it to the bottom, and the
    stored list, as the next fetch reads it, ends in the target. *)
Lemma successful_cycle_leaves_target_last_witness :
  exists s' : St Sim.World,
    enforceRulePosition Sim.config
      (Sim.world ["rule1"; "target"; "rule2"] [])
    = Some (None, s') /\
    Sim.store (net s') = ["rule1"; "rule2"; "target"] /\
    last_rule (Sim.store (net s')) = Some "target" /\
    (forall L2 s2,
        fetchUserRules Sim.config s' = Some (ok L2, s2) ->
        last_rule L2 = Some "target").
Proof.
  assert (Hrun : exists s' : St Sim.World,
             enforceRulePosition Sim.config
               (Sim.world ["rule1"; "target"; "rule2"] [])
             = Some (None, s') /\
             Sim.store (net s') = ["rule1"; "rule2"; "target"])
    by (eexists; split; lazy; reflexivity).
  destruct Hrun as (s' & He & Hs).
  exists s'. split; [exact He |]. split; [exact Hs |].
  exact (proj2 (@successful_cycle_leaves_target_last
                  Sim.World Sim.runtime Sim.store SimFacts.faithful
                  Sim.config _ s' He)).
Defined.

(** The target at the bottom: the cycle is a no-op. *)
Lemma target_at_bottom_is_noop_witness :
  last_rule ["rule1"; "rule2"; "target"] = Some "target" /\
  decide ["rule1"; "rule2"; "target"] "target" = Some NoOp /\
  exists s' evs,
    enforceRulePosition Sim.config
      (Sim.world ["rule1"; "rule2"; "target"] [])
    = Some (None, s') /\
    trace s' = [] ++ evs /\
    written evs = [] /\
    exchanges "POST" evs = 0%nat /\
    Sim.store (net s') = ["rule1"; "rule2"; "target"].
Proof.
  split; [reflexivity |].
  destruct (@target_at_bottom_is_noop Sim.World Sim.runtime
              ["rule1"; "rule2"; "target"] "target" eq_refl)
    as (_ & _ & Hd & Hcycle).
  split; [exact Hd |].
  assert (Hfetch : exists s1 : St Sim.World,
             fetchUserRules Sim.config
               (Sim.world ["rule1"; "rule2"; "target"] [])
             = Some (ok ["rule1"; "rule2"; "target"], s1) /\
             Sim.store (net s1) = ["rule1"; "rule2"; "target"])
    by (eexists; split; lazy; reflexivity).
  destruct Hfetch as (s1 & Hf & Hs).
  destruct (Hcycle Sim.config _ s1 eq_refl Hf)
    as (s' & evs & He & Hn & _ & Ht & Hw & Hp).
  exists s', evs. repeat split; try assumption.
  rewrite Hn. exact Hs.
Defined.

(** Two cycles in a row: the second makes no write. *)
Lemma second_cycle_is_noop_witness :
  decide ["rule1"; "rule2"; "target"] "target" = Some NoOp /\
  exists s' e s'' evs,
    enforceRulePosition Sim.config
      (Sim.world ["target"; "rule1"; "rule2"] [])
    = Some (None, s') /\
    enforceRulePosition Sim.config s' = Some (e, s'') /\
    trace s'' = trace s' ++ evs /\
    written evs = [] /\
    exchanges "POST" evs = 0%nat /\
    Sim.store (net s'') = Sim.store (net s').
Proof.
  destruct (@second_cycle_is_noop Sim.World Sim.runtime Sim.store
              SimFacts.faithful) as [Hdecide Hcycle].
  split.
  - exact (Hdecide ["rule1"; "target"; "rule2"] "target"
                   ["rule1"; "rule2"; "target"] eq_refl).
  - assert (Hrun : exists s' : St Sim.World,
               enforceRulePosition Sim.config
                 (Sim.world ["target"; "rule1"; "rule2"] [])
               = Some (None, s'))
      by (eexists; lazy; reflexivity).
    destruct Hrun as (s' & He1).
    destruct (Hcycle Sim.config _ s' He1)
      as (e & s'' & evs & He & Ht & Hw & Hp & Hk & _).
    exists s', e, s'', evs. repeat split; assumption.
Defined.

(** A write that the server rejects: the cycle fails with a protocol
    error, the failure is logged, the liveness probe turns unhealthy
    while the readiness probe stays ready, and the cycle of the next
    tick runs and repairs the list. *)
Example rejected_write_then_recovery :
  exists s1 s2 : St Sim.World,
    main Sim.config 0
         (Sim.world ["rule1"; "target"; "rule2"]
                    [Sim.Healthy; Sim.Reject 415])
    = Some (tt, s1) /\
    errorsLogged (trace s1)
    = [ErrUpdate (ErrStatus 415 "rejected")] /\
    classify (ErrUpdate (ErrStatus 415 "rejected")) = ProtocolError /\
    StatusCode (healthz s1) = StatusServiceUnavailable /\
    StatusCode (readyz s1) = StatusOK /\
    Sim.store (net s1) = ["rule1"; "target"; "rule2"] /\
    main Sim.config 1
         (Sim.world ["rule1"; "target"; "rule2"]
                    [Sim.Healthy; Sim.Reject 415])
    = Some (tt, s2) /\
    ticksReceived (trace s2) = 1%nat /\
    fetchCalls (trace s2) = 2%nat /\
    Sim.store (net s2) = ["rule1"; "rule2"; "target"] /\
    healthz s2 = {| StatusCode := StatusOK; Body := "OK" |}.
Proof. do 2 eexists. lazy. repeat split. Qed.

(** The three ways a fetch fails, and what the loop does with them. *)
Example failing_fetches :
  exists s' : St Sim.World,
    main Sim.config 3
         (Sim.world ["rule1"; "target"]
                    [Sim.Down "timeout"; Sim.Reject 401; Sim.Garbled])
    = Some (tt, s') /\
    errorsLogged (trace s')
    = [ErrFetch (ErrDo "timeout");
       ErrFetch (ErrStatus 401 "rejected");
       ErrFetch ErrDecode] /\
    map classify (errorsLogged (trace s'))
    = [TransportError; ProtocolError; ProtocolError] /\
    fetchCalls (trace s') = 4%nat /\
    written (trace s') = [] /\
    lastCheckOK s' = true.
Proof. eexists. lazy. repeat split. Qed.

(* ===================================================================== *)
(** * Startup *)
(* ===================================================================== *)

Module StringFacts.

Lemma substring_all (s : string) : substring 0 (String.length s) s = s.
Proof. induction s as [| c s IH]; simpl; congruence. Qed.

Lemma substring_prefix (r x : string) :
  substring 0 (String.length r) (String.append r x) = r.
Proof.
  induction r as [| c r IH]; simpl; [now destruct x | congruence].
Qed.

Lemma substring_suffix (r x : string) :
  substring (String.length r) (String.length x) (String.append r x) = x.
Proof. induction r as [| c r IH]; simpl; [apply substring_all | exact IH]. Qed.

Lemma length_app (r x : string) :
  String.length (String.append r x)
  = (String.length r + String.length x)%nat.
Proof. induction r as [| c r IH]; simpl; congruence. Qed.

Lemma substring_split (s : string) :
  forall n : nat,
    (n <= String.length s)%nat ->
    s = String.append (substring 0 n s)
                      (substring n (String.length s - n) s).
Proof.
  induction s as [| c s IH]; intros n Hn.
  - destruct n; reflexivity.
  - destruct n as [| n]; simpl.
    + now rewrite substring_all.
    + simpl in Hn. f_equal. apply IH. lia.
Qed.

End StringFacts.

(** [TrimSuffix] removes the suffix once when the string ends in it, and
    otherwise leaves the string alone. *)
Lemma TrimSuffix_cases (s suffix : string) :
  (HasSuffix s suffix = true /\
   s = String.append (TrimSuffix s suffix) suffix) \/
  (HasSuffix s suffix = false /\
   TrimSuffix s suffix = s /\
   forall r, s <> String.append r suffix).
Proof.
  unfold TrimSuffix. destruct (HasSuffix s suffix) eqn:H; [left | right].
  - split; [reflexivity |]. unfold HasSuffix in H.
    apply andb_true_iff in H. destruct H as [Hlen Heq].
    apply Nat.leb_le in Hlen. apply String.eqb_eq in Heq.
    pose proof (@StringFacts.substring_split
                  s (String.length s - String.length suffix)%nat) as Hs.
    replace (String.length s - (String.length s - String.length suffix))%nat
      with (String.length suffix) in Hs by lia.
    rewrite Heq in Hs. apply Hs. lia.
  - split; [reflexivity |]. split; [reflexivity |].
    intros r ->. unfold HasSuffix in H.
    rewrite StringFacts.length_app in H.
    replace (String.length r + String.length suffix - String.length suffix)%nat
      with (String.length r) in H by lia.
    rewrite StringFacts.substring_suffix, String.eqb_refl in H.
    apply andb_false_iff in H. destruct H as [H | H]; [| discriminate].
    apply Nat.leb_gt in H. lia.
Qed.

Lemma wrap64_small (z : Z) :
  -9223372036854775808 <= z <= 9223372036854775807 -> wrap64 z = z.
Proof. intro H. unfold wrap64. rewrite Z.mod_small; lia. Qed.

Lemma wrap64_over (z : Z) :
  9223372036854775807 < z <= 18446744073709551615 ->
  wrap64 z = z - 18446744073709551616.
Proof.
  intro H. unfold wrap64.
  replace (z + 9223372036854775808)
    with (z - 9223372036854775808 + 1 * 18446744073709551616) by lia.
  rewrite Z.mod_add by lia. rewrite Z.mod_small; lia.
Qed.

Lemma healthz_status_ok_iff {W : Type} {R : GoRuntime W} (s : St W) :
  StatusCode (healthz s) = StatusOK <->
  healthy s = true /\ lastCheckOK s = true.
Proof.
  unfold healthz. destruct (healthy s), (lastCheckOK s); simpl; split;
    try (intros [? ?]); try discriminate; auto.
Qed.

Section StartupFacts.

Context {C : GoStrconv}.
Variable getenv : string -> string.

Lemma getEnvOrFatal_cases (key : string) :
  (getenv key = "" /\ getEnvOrFatal getenv key = Fatal (FatalNotSet key)) \/
  (getenv key <> "" /\ getEnvOrFatal getenv key = Loaded (getenv key)).
Proof.
  unfold getEnvOrFatal.
  destruct (String.eqb_spec (getenv key) ""); [left | right]; auto.
Qed.

(** X1.  [loadConfig] returns a configuration exactly when the four
    required variables are set to non-empty values and [CHECK_INTERVAL]
    is unset, empty, or an integer greater than zero; otherwise the
    process dies. *)
Theorem loadConfig_loads_iff :
  (exists config, loadConfig getenv = Loaded config) <->
  (Forall (fun key => getenv key <> "") requiredKeys /\
   (getenv "CHECK_INTERVAL" = "" \/
    exists seconds,
      Atoi (getenv "CHECK_INTERVAL") = Some seconds /\ 0 < seconds)).
Proof.
  unfold loadConfig, requiredKeys.
  destruct (getEnvOrFatal_cases "ADGUARD_URL") as [[E1 ->] | [E1 ->]];
    [| destruct (getEnvOrFatal_cases "ADGUARD_USER") as [[E2 ->] | [E2 ->]];
       [| destruct (getEnvOrFatal_cases "ADGUARD_PASS")
            as [[E3 ->] | [E3 ->]];
          [| destruct (getEnvOrFatal_cases "TARGET_RULE")
               as [[E4 ->] | [E4 ->]]]]];
    simpl;
    try (split;
         [intros [? H]; discriminate H
         | intros [H _];
           repeat match goal with
                  | H : Forall _ (_ :: _) |- _ => inversion H; clear H; subst
                  end; congruence]).
  destruct (String.eqb_spec (getenv "CHECK_INTERVAL") "") as [Ei | Ei];
    simpl.
  - split; [| intros _; eexists; reflexivity].
    intros _. split; [| now left]. repeat constructor; assumption.
  - destruct (Atoi (getenv "CHECK_INTERVAL")) as [n |]; simpl.
    + destruct (Z.leb_spec n 0) as [Hn | Hn]; simpl.
      * split; [intros [? H]; discriminate H |].
        intros [_ [H | (m & [= <-] & Hm)]]; [congruence | lia].
      * split; [| intros _; eexists; reflexivity].
        intros _. split; [repeat constructor; assumption |].
        right. exists n. split; [reflexivity | lia].
    + split; [intros [? H]; discriminate H |].
      intros [_ [H | (m & H & _)]]; congruence.
Qed.

(** X2.  When a required variable is empty, the fatal line names the
    first such variable in the order URL, user, password, target rule;
    the interval is looked at only when all four are set, and then a
    text that is no integer and an integer that is not positive give
    their own fatal lines. *)
Theorem loadConfig_fatal_line :
  match find (fun key => String.eqb (getenv key) "") requiredKeys with
  | Some key => loadConfig getenv = Fatal (FatalNotSet key)
  | None =>
    getenv "CHECK_INTERVAL" <> "" ->
    match Atoi (getenv "CHECK_INTERVAL") with
    | None => loadConfig getenv = Fatal FatalIntervalNotInteger
    | Some seconds =>
      seconds <= 0 -> loadConfig getenv = Fatal FatalIntervalNotPositive
    end
  end.
Proof.
  unfold loadConfig, requiredKeys, getEnvOrFatal. simpl.
  destruct (String.eqb (getenv "ADGUARD_URL") ""); [reflexivity |].
  destruct (String.eqb (getenv "ADGUARD_USER") ""); [reflexivity |].
  destruct (String.eqb (getenv "ADGUARD_PASS") ""); [reflexivity |].
  destruct (String.eqb (getenv "TARGET_RULE") ""); [reflexivity |].
  simpl. intro Hi.
  destruct (String.eqb_spec (getenv "CHECK_INTERVAL") "") as [Ei | Ei];
    [congruence |].
  destruct (Atoi (getenv "CHECK_INTERVAL")) as [sec |]; [| reflexivity].
  intro Hn. destruct (Z.leb_spec sec 0); [reflexivity | lia].
Qed.

Lemma loadConfig_inv (config : Config) :
  loadConfig getenv = Loaded config ->
  Forall (fun key => getenv key <> "") requiredKeys /\
  AdGuardURL config = TrimSuffix (getenv "ADGUARD_URL") "/" /\
  AdGuardUser config = getenv "ADGUARD_USER" /\
  AdGuardPass config = getenv "ADGUARD_PASS" /\
  TargetRule config = getenv "TARGET_RULE" /\
  HealthPort config = (if String.eqb (getenv "HEALTH_PORT") ""
                       then "8080" else getenv "HEALTH_PORT") /\
  ((getenv "CHECK_INTERVAL" = "" /\ CheckInterval config = 60 * Second) \/
   (getenv "CHECK_INTERVAL" <> "" /\
    exists seconds,
      Atoi (getenv "CHECK_INTERVAL") = Some seconds /\
      0 < seconds /\
      CheckInterval config = wrap64 (seconds * Second))).
Proof.
  unfold loadConfig, requiredKeys.
  destruct (getEnvOrFatal_cases "ADGUARD_URL") as [[E1 ->] | [E1 ->]];
    [discriminate |].
  destruct (getEnvOrFatal_cases "ADGUARD_USER") as [[E2 ->] | [E2 ->]];
    [discriminate |].
  destruct (getEnvOrFatal_cases "ADGUARD_PASS") as [[E3 ->] | [E3 ->]];
    [discriminate |].
  destruct (getEnvOrFatal_cases "TARGET_RULE") as [[E4 ->] | [E4 ->]];
    [discriminate |].
  simpl.
  destruct (String.eqb_spec (getenv "CHECK_INTERVAL") "") as [Ei | Ei];
    simpl.
  - intros [= <-]. simpl.
    split; [repeat constructor; assumption |].
    repeat (split; [reflexivity |]). now left.
  - destruct (Atoi (getenv "CHECK_INTERVAL")) as [n |]; [| discriminate].
    destruct (Z.leb_spec n 0) as [Hn | Hn]; [discriminate |].
    simpl. intros [= <-]. simpl.
    split; [repeat constructor; assumption |].
    repeat (split; [reflexivity |]). right.
    split; [assumption |]. exists n. repeat split. lia.
Qed.

(** X3.  In a loaded configuration the user, the password and the target
    rule are the values of their variables, as they are and not empty;
    the URL is the value of its variable with one trailing slash
    removed, if it had one; the health port is the value of its variable
    or 8080 when that is empty, and never empty. *)
Theorem loadConfig_fields (config : Config) :
  loadConfig getenv = Loaded config ->
  AdGuardUser config = getenv "ADGUARD_USER" /\
  AdGuardUser config <> "" /\
  AdGuardPass config = getenv "ADGUARD_PASS" /\
  AdGuardPass config <> "" /\
  TargetRule config = getenv "TARGET_RULE" /\
  TargetRule config <> "" /\
  (getenv "ADGUARD_URL" = String.append (AdGuardURL config) "/" \/
   (AdGuardURL config = getenv "ADGUARD_URL" /\
    forall r, getenv "ADGUARD_URL" <> String.append r "/")) /\
  HealthPort config <> "" /\
  (HealthPort config = getenv "HEALTH_PORT" \/
   (getenv "HEALTH_PORT" = "" /\ HealthPort config = "8080")).
Proof.
  intro H. apply loadConfig_inv in H.
  destruct H as (Hreq & -> & -> & -> & -> & -> & _).
  unfold requiredKeys in Hreq.
  repeat match goal with
         | H : Forall _ (_ :: _) |- _ => inversion H; clear H; subst
         end.
  repeat (split; [assumption || reflexivity |]).
  split.
  { destruct (TrimSuffix_cases (getenv "ADGUARD_URL") "/")
      as [[_ Ht] | (_ & Ht1 & Ht2)]; [left | right]; auto. }
  destruct (String.eqb_spec (getenv "HEALTH_PORT") "") as [Ep | Ep].
  - split; [discriminate |]. right. auto.
  - split; [assumption |]. now left.
Qed.

(** X4.  The check interval of a loaded configuration is 60 s when
    [CHECK_INTERVAL] is empty; for an integer of at most 9223372036
    seconds it is that many seconds and positive; for a larger one, up
    to 18446744073, the 64-bit product has wrapped and the interval is
    negative, although the integer passed the check. *)
Theorem loadConfig_interval (config : Config) :
  loadConfig getenv = Loaded config ->
  (getenv "CHECK_INTERVAL" = "" /\ CheckInterval config = 60000000000) \/
  (exists seconds,
      getenv "CHECK_INTERVAL" <> "" /\
      Atoi (getenv "CHECK_INTERVAL") = Some seconds /\
      0 < seconds /\
      (seconds <= 9223372036 ->
       CheckInterval config = seconds * 1000000000 /\
       0 < CheckInterval config) /\
      (9223372036 < seconds <= 18446744073 ->
       CheckInterval config = seconds * 1000000000 - 18446744073709551616 /\
       CheckInterval config < 0)).
Proof.
  intro H. apply loadConfig_inv in H.
  destruct H as (_ & _ & _ & _ & _ & _ & [[Ei Hc] | (Ei & n & Ha & Hn & Hc)]).
  - left. split; [assumption |]. rewrite Hc. reflexivity.
  - right. exists n. repeat (split; [assumption |]).
    unfold Second in Hc. split; intro Hr.
    + rewrite wrap64_small in Hc by lia. lia.
    + rewrite wrap64_over in Hc by lia. lia.
Qed.

(** X5.  The health-check client exits with 0 exactly when the probe is
    answered with status 200, and with 1 otherwise; for the environment
    of a loaded configuration it probes the port the health server of
    that configuration listens on; and answered by the [/healthz]
    handler in state [s], it exits with 0 exactly when both health flags
    of [s] are set. *)
Theorem healthCheckMode_exit (http_Get : string -> DoResult) :
  (healthCheckMode getenv http_Get = 0 \/
   healthCheckMode getenv http_Get = 1) /\
  (forall config,
      loadConfig getenv = Loaded config ->
      (healthCheckMode getenv http_Get = 0 <->
       exists resp,
         http_Get (probeURL (HealthPort config)) = DoResponse resp /\
         StatusCode resp = StatusOK) /\
      (forall (W : Type) (R : GoRuntime W) (s : St W),
          http_Get (probeURL (HealthPort config)) = DoResponse (healthz s) ->
          (healthCheckMode getenv http_Get = 0 <->
           healthy s = true /\ lastCheckOK s = true))).
Proof.
  assert (Hexit : forall port,
             port = (if String.eqb (getenv "HEALTH_PORT") ""
                     then "8080" else getenv "HEALTH_PORT") ->
             (healthCheckMode getenv http_Get = 0 \/
              healthCheckMode getenv http_Get = 1) /\
             (healthCheckMode getenv http_Get = 0 <->
              exists resp,
                http_Get (probeURL port) = DoResponse resp /\
                StatusCode resp = StatusOK)).
  { intros port ->. unfold healthCheckMode, probeURL.
    destruct (http_Get _) as [cause | resp].
    - split; [now right |]. split; [discriminate |].
      intros (? & H & _). discriminate H.
    - destruct (Z.eqb_spec (StatusCode resp) StatusOK) as [Hs | Hs]; simpl.
      + split; [now left |]. split; [| reflexivity].
        intros _. exists resp. auto.
      + split; [now right |]. split; [discriminate |].
        intros (? & [= <-] & H). congruence. }
  split; [exact (proj1 (Hexit _ eq_refl)) |].
  intros config Hl. apply loadConfig_inv in Hl.
  destruct Hl as (_ & _ & _ & _ & _ & Hp & _).
  destruct (Hexit _ Hp) as [_ Hiff].
  split; [exact Hiff |].
  intros W R s Hget. rewrite Hiff, Hget. split.
  - intros (resp & [= <-] & Hs). now apply healthz_status_ok_iff.
  - intros Hf. exists (healthz s). split; [reflexivity |].
    now apply healthz_status_ok_iff.
Qed.

End StartupFacts.

(* ===================================================================== *)
(** * The trace of a run *)
(* ===================================================================== *)

Lemma logged_app (a b : list Event) : logged (a ++ b) = logged a ++ logged b.
Proof.
  induction a as [| e a IH]; simpl; [reflexivity |].
  destruct e; simpl; rewrite IH; reflexivity.
Qed.

Lemma requests_app (a b : list Event) :
  requests (a ++ b) = requests a ++ requests b.
Proof.
  induction a as [| e a IH]; simpl; [reflexivity |].
  destruct e; simpl; rewrite IH; reflexivity.
Qed.


Lemma received_app (a b : list Event) :
  received (a ++ b) = received a ++ received b.
Proof.
  induction a as [| e a IH]; simpl; [reflexivity |].
  destruct e as [| | req [cause | resp] | | |]; simpl; rewrite IH;
    reflexivity.
Qed.

Section RunFacts.

Context {W : Type} {R : GoRuntime W}.

(** Every cycle leaves one of the six shapes, with one GET exchange
    when the request of the fetch can be built and none when it
    cannot. *)
Lemma cycle_shape (config : Config) (s s1 : St W) (e : option error) :
  enforceRulePosition config s = Some (e, s1) ->
  exists evs,
    trace s1 = trace s ++ evs /\
    CycleTrace config e evs /\
    exchanges "GET" evs
    = (if url_valid (URL (fetchRequest config)) then 1 else 0)%nat.
Proof.
  rewrite enforceRulePosition_decide, fetchUserRules_run.
  destruct (url_valid (URL (fetchRequest config))).
  2:{ intros [= <- <-]. eexists. split; [reflexivity |].
      split; [constructor | reflexivity]. }
  destruct (client_Do (fetchRequest config) (net s)) as [res w'].
  simpl fst; simpl snd.
  destruct (fetchResult res) as [L | x] eqn:Hres.
  2:{ intros [= <- <-]. eexists. simpl. rewrite <- app_assoc.
      split; [reflexivity |]. split; [now constructor | reflexivity]. }
  destruct (decide L (TargetRule config)) as [[| L'] |] eqn:Hd;
    [| | discriminate].
  - apply decide_NoOp_iff in Hd. intros [= <- <-].
    eexists. simpl. rewrite <- !app_assoc.
    split; [reflexivity |]. split; [now constructor | reflexivity].
  - apply decide_Reorder_iff in Hd. destruct Hd as [Hlast ->].
    rewrite updateUserRules_run.
    destruct (json_Marshal _) as [b |] eqn:Hm.
    2:{ intros [= <- <-]. eexists. simpl. rewrite <- !app_assoc.
        split; [reflexivity |].
        split; [eapply CycleUpdateUnsent; eauto | reflexivity]. }
    destruct (url_valid (URL (updateRequest config b))).
    2:{ intros [= <- <-]. eexists. simpl. rewrite <- !app_assoc.
        split; [reflexivity |].
        split; [eapply CycleUpdateUnsent; eauto | reflexivity]. }
    simpl net.
    destruct (client_Do (updateRequest config b) w') as [res' w''].
    simpl fst; simpl snd.
    destruct (updateResult res') as [x |] eqn:Hres'.
    + intros [= <- <-]. eexists. simpl. rewrite <- !app_assoc.
      split; [reflexivity |].
      split; [eapply CycleUpdateFailed; eauto | reflexivity].
    + intros [= <- <-]. eexists. simpl. rewrite <- !app_assoc.
      split; [reflexivity |].
      split; [eapply CycleUpdated; eauto | reflexivity].
Qed.

(** The body of the loop: a cycle, its report, and the flag. *)
Lemma check_shape (onError : error -> LogLine) (config : Config)
      (s s' : St W) :
  check onError config s = Some (tt, s') ->
  exists e evs,
    CycleTrace config e evs /\
    trace s' = trace s ++ evs ++ reported onError e /\
    healthy s' = healthy s /\
    lastCheckOK s' = match e with Some _ => false | None => true end.
Proof.
  rewrite check_run.
  destruct (enforceRulePosition_frame config s)
    as (e & s1 & evs0 & He & _ & Hh & _).
  rewrite He.
  destruct (cycle_shape config s He) as (evs & Ht & Hc & _).
  destruct e as [x |]; intros [= <-];
    [exists (Some x), evs | exists None, evs]; simpl;
    rewrite Ht, <- ?app_assoc, ?app_nil_r; repeat split; assumption.
Qed.

Lemma tickerLoop_shape (config : Config) (n : nat) :
  forall s s' : St W,
    tickerLoop config n s = Some (tt, s') ->
    exists evs,
      trace s' = trace s ++ evs /\
      LoopTrace config n evs /\
      healthy s' = healthy s.
Proof.
  induction n as [| n IH]; intros s s'.
  - intros [= <-]. exists []. rewrite app_nil_r.
    split; [reflexivity |]. split; [constructor | reflexivity].
  - destruct (tickerLoop_next config n s) as (s1 & Hc & ->).
    intro Hl.
    destruct (check_shape _ _ _ Hc) as (e & cycle & Hcyc & Ht1 & Hh1 & _).
    destruct (IH s1 s' Hl) as (rest & Ht & Hrest & Hh).
    exists (EvTick :: cycle ++ reported LogEnforceError e ++ rest).
    split.
    { rewrite Ht, Ht1. simpl. rewrite <- !app_assoc. reflexivity. }
    split; [now constructor |]. now rewrite Hh, Hh1.
Qed.

(** Every run of [main] leaves a run trace. *)
Lemma run_shape (config : Config) (ticks : nat) (s s' : St W) :
  main config ticks s = Some (tt, s') ->
  exists evs,
    trace s' = trace s ++ evs /\
    RunTrace config ticks evs /\
    healthy s' = healthy s.
Proof.
  intro Hm. pose proof (main_returns_positive config ticks s Hm) as Hpos.
  rewrite main_startup in Hm by assumption. unfold bind at 1 in Hm.
  match type of Hm with
  | context [check LogInitialError config ?s0] =>
    destruct (check_frame LogInitialError config s0)
      as (s1 & evs0 & Hc & _);
    rewrite Hc in Hm;
    destruct (check_shape _ _ _ Hc) as (e & cycle & Hcyc & Ht1 & Hh1 & _)
  end.
  destruct (tickerLoop_shape config ticks s1 Hm) as (rest & Ht & Hrest & Hh).
  exists (startupEvents config ++ cycle
            ++ reported LogInitialError e ++ rest).
  split.
  { rewrite Ht, Ht1. simpl. rewrite <- !app_assoc. reflexivity. }
  split; [now constructor |]. rewrite Hh, Hh1. reflexivity.
Qed.

(** A property of traces that holds of the empty trace, of the startup,
    of a tick and of every reported cycle, and that is kept by
    concatenation, holds of every run. *)
Lemma run_trace_ind (config : Config) (P : list Event -> Prop) :
  P [] ->
  (forall a b, P a -> P b -> P (a ++ b)) ->
  P (startupEvents config) ->
  P [EvTick] ->
  (forall e evs,
      CycleTrace config e evs ->
      P (evs ++ reported LogInitialError e) /\
      P (evs ++ reported LogEnforceError e)) ->
  forall ticks evs, RunTrace config ticks evs -> P evs.
Proof.
  intros Hnil Happ Hstart Htick Hcycle ticks evs Hrun.
  assert (Hloop : forall n rest, LoopTrace config n rest -> P rest).
  { induction 1 as [| n e cycle rest Hc _ IH]; [exact Hnil |].
    change (EvTick :: cycle ++ reported LogEnforceError e ++ rest)
      with ([EvTick] ++ cycle ++ reported LogEnforceError e ++ rest).
    apply Happ; [exact Htick |]. rewrite app_assoc.
    apply Happ; [apply (Hcycle e cycle Hc) | exact IH]. }
  destruct Hrun as [e cycle rest Hc Hrest].
  apply Happ; [exact Hstart |]. rewrite app_assoc.
  apply Happ; [apply (Hcycle e cycle Hc) | exact (Hloop _ _ Hrest)].
Qed.




End RunFacts.

(* ===================================================================== *)
(** * What a run does and never does *)
(* ===================================================================== *)

Section RunProperties.

Context {W : Type} {R : GoRuntime W}.

Lemma fetchResult_err_strings (req : Request) (res : DoResult) (x : error) :
  fetchResult res = err x ->
  forall str, In str (errorStrings x) -> In str (received [EvHTTP req res]).
Proof.
  destruct res as [cause | resp]; simpl.
  - intros [= <-] str H. exact H.
  - destruct (StatusCode resp =? StatusOK).
    + destruct (json_Decode (Body resp)); [discriminate |].
      intros [= <-] str [].
    + intros [= <-] str H. exact H.
Qed.

Lemma updateResult_err_strings (req : Request) (res : DoResult) (x : error) :
  updateResult res = Some x ->
  forall str, In str (errorStrings x) -> In str (received [EvHTTP req res]).
Proof.
  destruct res as [cause | resp]; simpl.
  - intros [= <-] str H. exact H.
  - destruct (StatusCode resp =? StatusOK); [discriminate |].
    intros [= <-] str H. exact H.
Qed.

(** X6.  Every run of [main] with a positive ticker period has sent only the two requests of its
    configuration: the GET of the status, without a body, and the POST
    of [set_rules] with the JSON encoding of a list that ends in the
    target and holds it once; both carry the configured user and
    password as basic authentication, and nothing goes to another URL. *)
Theorem run_sends_expected_requests (config : Config) (ticks : nat)
        (s : St W) :
  0 < CheckInterval config ->
  exists s' evs,
    main config ticks s = Some (tt, s') /\
    trace s' = trace s ++ evs /\
    Forall (expectedRequest config) (requests evs) /\
    Forall (fun req =>
              BasicAuth req
              = Some (AdGuardUser config, AdGuardPass config) /\
              ((Method req = "GET" /\ ReqBody req = None /\
                URL req = String.append (AdGuardURL config)
                                        "/control/filtering/status") \/
               (Method req = "POST" /\ ReqBody req <> None /\
                ContentType req = Some "application/json" /\
                URL req = String.append (AdGuardURL config)
                                        "/control/filtering/set_rules")))
           (requests evs).
Proof.
  intro Hpos.
  destruct (@main_frame _ _ config ticks s Hpos) as (s' & evs0 & Hm & _).
  destruct (run_shape config ticks s Hm) as (evs & Ht & Hrun & _).
  exists s', evs. split; [exact Hm |]. split; [exact Ht |].
  assert (H : Forall (expectedRequest config) (requests evs)).
  { apply (run_trace_ind
             (config := config)
             (fun evs => Forall (expectedRequest config) (requests evs)))
      with (ticks := ticks); try assumption.
    - constructor.
    - intros a b Ha Hb. rewrite requests_app. apply Forall_app. auto.
    - simpl. constructor.
    - simpl. constructor.
    - intros e cyc Hc.
      assert (Hcyc : Forall (expectedRequest config) (requests cyc)).
      { destruct Hc; simpl;
          repeat (apply Forall_cons || apply Forall_nil);
          try (left; reflexivity);
          right; subst; do 2 eexists;
          (split; [eassumption |]); (split; [reflexivity |]);
          (split; [apply last_rule_snoc | apply occurrences_updated]). }
      split; rewrite requests_app; apply Forall_app; (split; [exact Hcyc |]);
        destruct e; simpl; constructor. }
  split; [exact H |].
  eapply Forall_impl; [| exact H].
  intros req [-> | (L & b & _ & -> & _)]; simpl.
  - split; [reflexivity |]. left. repeat split.
  - split; [reflexivity |]. right. repeat split. discriminate.
Qed.

(** X7.  Every list a run of [main] with a positive ticker period
    hands to the update ends in the
    target and holds it exactly once, and the run makes no more writes
    than it has logged successful fetches. *)
Theorem run_writes_end_in_target (config : Config) (ticks : nat)
        (s : St W) :
  0 < CheckInterval config ->
  exists s' evs,
    main config ticks s = Some (tt, s') /\
    trace s' = trace s ++ evs /\
    Forall (fun L => last_rule L = Some (TargetRule config) /\
                     occurrences (TargetRule config) L = 1%nat)
           (written evs) /\
    (List.length (written evs)
     <= List.length (filter (fun l => match l with
                                      | LogFetched _ => true
                                      | _ => false
                                      end) (logged evs)))%nat.
Proof.
  intro Hpos.
  destruct (@main_frame _ _ config ticks s Hpos) as (s' & evs0 & Hm & _).
  destruct (run_shape config ticks s Hm) as (evs & Ht & Hrun & _).
  exists s', evs. split; [exact Hm |]. split; [exact Ht |].
  apply (run_trace_ind
           (config := config)
           (fun evs =>
              Forall (fun L => last_rule L = Some (TargetRule config) /\
                               occurrences (TargetRule config) L = 1%nat)
                     (written evs) /\
              (List.length (written evs)
               <= List.length (filter (fun l => match l with
                                                | LogFetched _ => true
                                                | _ => false
                                                end) (logged evs)))%nat))
    with (ticks := ticks); try assumption.
  - simpl. split; [constructor | lia].
  - intros a b [Ha Ha'] [Hb Hb'].
    rewrite written_app, logged_app, filter_app, !length_app.
    split; [apply Forall_app; auto | lia].
  - simpl. split; [constructor | lia].
  - simpl. split; [constructor | lia].
  - intros e cyc Hc.
    assert (Hcyc : Forall (fun L => last_rule L = Some (TargetRule config) /\
                                    occurrences (TargetRule config) L = 1%nat)
                          (written cyc) /\
                   (List.length (written cyc)
                    <= List.length (filter (fun l => match l with
                                                     | LogFetched _ => true
                                                     | _ => false
                                                     end) (logged cyc)))%nat).
    { destruct Hc; simpl; subst;
        (split; [repeat constructor;
                 try apply last_rule_snoc; try apply occurrences_updated
                | lia]). }
    destruct Hcyc as [H1 H2].
    split; rewrite written_app, logged_app, filter_app, !length_app;
      (split; [apply Forall_app; split; [exact H1 |]
              | ]);
      destruct e; simpl; try constructor; lia.
Qed.

(** What the main goroutine prints. *)
Lemma main_log_origin (config : Config) (ticks : nat) (s : St W) :
  0 < CheckInterval config ->
  exists s' evs,
    main config ticks s = Some (tt, s') /\
    trace s' = trace s ++ evs /\
    forall l str,
      In l (logged evs) ->
      In str (printed l) ->
      In str (printable config) \/ In str (received evs).
Proof.
  intro Hpos.
  destruct (@main_frame _ _ config ticks s Hpos) as (s' & evs0 & Hm & _).
  destruct (run_shape config ticks s Hm) as (evs & Ht & Hrun & _).
  exists s', evs. split; [exact Hm |]. split; [exact Ht |].
  apply (run_trace_ind
           (config := config)
           (fun evs =>
              forall l str,
                In l (logged evs) -> In str (printed l) ->
                In str (printable config) \/ In str (received evs)))
    with (ticks := ticks); try assumption.
  - intros l str [].
  - intros a b Ha Hb l str Hl Hs.
    rewrite logged_app in Hl. rewrite received_app.
    apply in_app_or in Hl. destruct Hl as [Hl | Hl];
      [destruct (Ha l str Hl Hs) | destruct (Hb l str Hl Hs)];
      auto using in_or_app.
  - intros l str Hl Hs. left. simpl in Hl.
    destruct Hl as [<- | [<- | []]]; simpl in Hs; [destruct Hs |].
    unfold printable. simpl. intuition.
  - intros l str [].
  - intros e cyc Hc.
    assert (Hquiet : forall l str,
               In l (logged cyc) -> In str (printed l) -> False).
    { intros l str Hl Hs. destruct Hc; simpl in Hl;
        repeat match goal with
               | H : _ \/ _ |- _ => destruct H
               | H : False |- _ => destruct H
               end; subst; simpl in Hs; exact Hs. }
    assert (Hreport : forall x str,
               e = Some x -> In str (errorStrings x) ->
               In str (printable config) \/ In str (received cyc)).
    { intros x0 str He Hs. destruct Hc; try discriminate;
        injection He as <-; simpl in Hs.
      - left. destruct Hs as [<- | []]. unfold printable, fetchRequest.
        simpl. auto.
      - right.
        eapply (fetchResult_err_strings (fetchRequest config));
          eassumption.
      - left.
        match goal with
        | H : _ \/ _ |- _ =>
          destruct H as [[_ ->] | (b & _ & ->)]; simpl in Hs
        end; [destruct Hs |].
        destruct Hs as [<- | []]. unfold printable, updateRequest.
        simpl. auto.
      - right.
        change [EvCall OpFetch; EvHTTP (fetchRequest config) res;
                EvLog (LogFetched (Slice.len L));
                EvLog (LogMoving (Slice.len L') (Slice.len L'));
                EvCall (OpUpdate L'); EvHTTP (updateRequest config b) res']
          with ([EvCall OpFetch; EvHTTP (fetchRequest config) res;
                 EvLog (LogFetched (Slice.len L));
                 EvLog (LogMoving (Slice.len L') (Slice.len L'));
                 EvCall (OpUpdate L')]
                  ++ [EvHTTP (updateRequest config b) res']).
        rewrite received_app. apply in_or_app. right.
        eapply (updateResult_err_strings (updateRequest config b));
          eassumption. }
    split; intros l str Hl Hs; rewrite logged_app in Hl;
      rewrite received_app; apply in_app_or in Hl;
      (destruct Hl as [Hl | Hl]; [destruct (Hquiet l str Hl Hs) |]);
      destruct e as [x0 |]; simpl in Hl; try (destruct Hl; fail);
      destruct Hl as [<- | []]; simpl in Hs;
      destruct (Hreport x0 str eq_refl Hs); auto using in_or_app.
Qed.

Lemma interleaving_logged (a b m : list Event) (l : LogLine) :
  Interleaving a b m ->
  In l (logged m) -> In l (logged a) \/ In l (logged b).
Proof.
  induction 1 as [| e a b m _ IH | e a b m _ IH]; simpl; [tauto | |];
    destruct e; simpl; try exact IH;
    intros [<- | H]; auto; destruct (IH H); auto.
Qed.

Lemma interleaving_received (a b m : list Event) (x : string) :
  Interleaving a b m -> In x (received a) -> In x (received m).
Proof.
  induction 1 as [| e a b m _ IH | e a b m _ IH]; simpl; [tauto | |].
  - destruct e as [| | req [cause | resp] | | |]; simpl; try exact IH;
      intros [<- | H]; auto.
  - intro H. destruct e as [| | req [cause | resp] | | |]; simpl; auto.
Qed.

(** X8.  Every string that a run prints in its log lines, those of
    [main] and those of the health server goroutine in whatever order
    they come out, is the URL of the configuration, one of the two
    endpoint URLs made from it, the target rule, the health port, the
    error of [http.ListenAndServe], or text that came back from the
    network (a response body, the cause of a failed exchange): the user
    and the password are printed only if they are one of these. *)
Theorem run_prints_no_credentials (config : Config) (ticks : nat)
        (listen : option string) (s sg : St W) :
  0 < CheckInterval config ->
  exists s' evs sg',
    main config ticks s = Some (tt, s') /\
    trace s' = trace s ++ evs /\
    startHealthServer (HealthPort config) listen sg = Some (tt, sg') /\
    trace sg' = trace sg ++ serverEvents (HealthPort config) listen /\
    forall all l str,
      Interleaving evs (serverEvents (HealthPort config) listen) all ->
      In l (logged all) ->
      In str (printed l) ->
      In str (printable config) \/
      listen = Some str \/
      In str (received all).
Proof.
  intro Hpos.
  destruct (@main_log_origin config ticks s Hpos)
    as (s' & evs & Hm & Ht & Hmain).
  exists s', evs.
  assert (Hserver : exists sg',
             startHealthServer (HealthPort config) listen sg
             = Some (tt, sg') /\
             trace sg' = trace sg ++ serverEvents (HealthPort config) listen).
  { unfold startHealthServer, bind, log, emit, set_healthy, ret.
    destruct listen as [cause |]; eexists; (split; [reflexivity |]);
      simpl; rewrite <- ?app_assoc; reflexivity. }
  destruct Hserver as (sg' & Hs & Htg).
  exists sg'. repeat (split; [assumption |]).
  intros all l str Hall Hl Hstr.
  destruct (@interleaving_logged _ _ _ l Hall Hl) as [Hin | Hin].
  - destruct (Hmain l str Hin Hstr) as [H | H]; [now left |].
    right. right. exact (@interleaving_received _ _ _ str Hall H).
  - simpl in Hin. destruct Hin as [<- | Hin].
    + left. simpl in Hstr. destruct Hstr as [<- | []].
      unfold printable. simpl. auto 6.
    + destruct listen as [cause |]; [| destruct Hin].
      destruct Hin as [<- | []]. simpl in Hstr.
      destruct Hstr as [<- | []]. right. left. reflexivity.
Qed.

End RunProperties.

(* ===================================================================== *)
(** * Reports, flags and the ways a process ends *)
(* ===================================================================== *)



Section ReportFacts.

Context {W : Type} {R : GoRuntime W}.





(** X10.  When [http.ListenAndServe] returns an error the health server
    logs it and clears [healthy]; nothing sets the flag again: after any
    number of further cycles, successful or not, the liveness handler
    answers 503 "UNHEALTHY" while the readiness handler answers 200. *)
Theorem failed_health_server_stays_unhealthy
        (port cause : string) (config : Config) (n : nat) (s : St W) :
  exists s1 s2,
    startHealthServer port (Some cause) s = Some (tt, s1) /\
    trace s1 = trace s ++ [EvLog (LogHealthListening port);
                           EvLog (LogHealthServerError cause)] /\
    healthy s1 = false /\
    tickerLoop config n s1 = Some (tt, s2) /\
    healthy s2 = false /\
    healthz s2 = {| StatusCode := StatusServiceUnavailable;
                    Body := "UNHEALTHY" |} /\
    readyz s2 = {| StatusCode := StatusOK; Body := "READY" |}.
Proof.
  eexists. 
  match goal with
  | |- exists s2, ?start = _ /\ _ =>
    destruct (tickerLoop_frame
                config n
                {| net := net s;
                   trace := (trace s ++ [EvLog (LogHealthListening port)])
                              ++ [EvLog (LogHealthServerError cause)];
                   healthy := false;
                   lastCheckOK := lastCheckOK s |})
      as (s2 & evs & Hl & _ & Hh & _)
  end.
  exists s2. split; [reflexivity |].
  split; [simpl; now rewrite <- app_assoc |].
  split; [reflexivity |]. split; [exact Hl |].
  simpl in Hh. split; [exact Hh |].
  unfold healthz. rewrite Hh. split; reflexivity.
Qed.

End ReportFacts.

Section ProcessFacts.

Context {W : Type} {R : GoRuntime W} {C : GoStrconv}.


End ProcessFacts.

Section FailureFacts.

Context {W : Type} {R : GoRuntime W}.

(** X12.  A failed cycle returns either the error the fetch returned,
    wrapped as a fetch failure, or the error the update returned,
    wrapped as an update failure.  After a failed fetch the cycle has
    made no write and sent no POST, has logged nothing, and, the store
    being faithful, the stored list is as it was.  An update fails only
    after a successful fetch and with one list handed over, the fetched
    list without the target followed by the target. *)
Theorem failed_cycle_origin (config : Config) (s s1 : St W) (e : error) :
  enforceRulePosition config s = Some (Some e, s1) ->
  exists evs,
    trace s1 = trace s ++ evs /\
    ((exists x,
         e = ErrFetch x /\
         fetchUserRules config s = Some (err x, s1) /\
         written evs = [] /\
         exchanges "POST" evs = 0%nat /\
         logged evs = [] /\
         (forall stored : W -> list string,
             FaithfulStore R stored -> stored (net s1) = stored (net s)))
     \/
     (exists x L s0 L',
         e = ErrUpdate x /\
         fetchUserRules config s = Some (ok L, s0) /\
         L' = without (TargetRule config) L ++ [TargetRule config] /\
         updateUserRules config L'
           (push (EvLog (LogMoving (Slice.len L') (Slice.len L')))
                 (push (EvLog (LogFetched (Slice.len L))) s0))
         = Some (Some x, s1) /\
         written evs = [L'] /\
         logged evs = [LogFetched (Slice.len L);
                       LogMoving (Slice.len L') (Slice.len L')])).
Proof.
  intro He.
  destruct (cycle_shape config s He) as (evs & Ht & _).
  exists evs. split; [exact Ht |].
  rewrite enforceRulePosition_decide in He.
  destruct (fetchUserRules config s) as [[[L | x] s0] |] eqn:Hf;
    [| | discriminate].
  - (* the fetch succeeded: the failure is the update's *)
    destruct (decide L (TargetRule config)) as [[| L'] |] eqn:Hdec;
      [discriminate | | discriminate].
    apply decide_Reorder_iff in Hdec. destruct Hdec as [Hlast ->].
    match type of He with
    | context [updateUserRules config ?l ?s2] =>
      destruct (updateUserRules config l s2) as [[[x |] s3] |] eqn:Hu
    end; try discriminate.
    injection He as <- <-.
    right. exists x, L, s0. eexists.
    split; [reflexivity |]. split; [reflexivity |].
    split; [reflexivity |]. split; [exact Hu |].
    pose proof Hf as Hf'.
    apply fetchUserRules_ok_inv in Hf'.
    destruct Hf' as (resp' & status' & _ & _ & _ & _ & Ht0).
    destruct (updateUserRules_frame
                config
                (without (TargetRule config) L ++ [TargetRule config])
                (push (EvLog (LogMoving
                                (Slice.len (without (TargetRule config) L
                                              ++ [TargetRule config]))
                                (Slice.len (without (TargetRule config) L
                                              ++ [TargetRule config]))))
                      (push (EvLog (LogFetched (Slice.len L))) s0)))
      as (e' & s3' & evs3 & Hu' & Ht3 & _ & _ & Hshape).
    rewrite Hu in Hu'. injection Hu' as <- <-.
    simpl in Ht3. rewrite Ht3, Ht0, <- !app_assoc in Ht.
    apply app_inv_head in Ht. subst evs. simpl.
    destruct Hshape as [-> | (b & res & ->)]; simpl; split; reflexivity.
  - (* the fetch failed *)
    injection He as <- <-.
    left. exists x. split; [reflexivity |]. split; [reflexivity |].
    destruct (fetchUserRules_frame config s)
      as (r & s0' & evs0 & Hf0 & Ht0 & _ & _ & Hshape).
    rewrite Hf in Hf0. injection Hf0 as <- <-.
    rewrite Ht0 in Ht. apply app_inv_head in Ht. subst evs.
    split; [destruct Hshape as [-> | [res ->]]; reflexivity |].
    split; [destruct Hshape as [-> | [res ->]]; reflexivity |].
    split; [destruct Hshape as [-> | [res ->]]; reflexivity |].
    intros stored F.
    exact (@fetch_keeps_store W R stored F config s s0 (err x) Hf).
Qed.

End FailureFacts.

(** A fetch that times out fails the cycle and leaves the list alone. *)
Lemma failed_cycle_origin_witness :
  exists s1 : St Sim.World,
    enforceRulePosition Sim.config
      (Sim.world ["rule1"; "target"; "rule2"] [Sim.Down "timeout"])
    = Some (Some (ErrFetch (ErrDo "timeout")), s1) /\
    Sim.store (net s1) = ["rule1"; "target"; "rule2"] /\
    written (trace s1) = [].
Proof.
  assert (Hrun : exists s1 : St Sim.World,
             enforceRulePosition Sim.config
               (Sim.world ["rule1"; "target"; "rule2"]
                          [Sim.Down "timeout"])
             = Some (Some (ErrFetch (ErrDo "timeout")), s1))
    by (eexists; lazy; reflexivity).
  destruct Hrun as (s1 & He).
  exists s1. split; [exact He |].
  destruct (@failed_cycle_origin Sim.World Sim.runtime
              Sim.config _ s1 _ He)
    as (evs & Ht & [(x & _ & _ & Hw & _ & _ & Hk) |
                    (x & L & s0 & L' & Hx & _)]);
    [| discriminate Hx].
  split; [exact (Hk Sim.store SimFacts.faithful) |].
  rewrite Ht. exact Hw.
Defined.

(* ===================================================================== *)
(** * Rules as lines of text *)
(* ===================================================================== *)

Module V1Facts.

Lemma lines_not_nil (s : string) : V1.lines s <> [].
Proof.
  induction s as [| c s IH]; simpl; [discriminate |].
  destruct (Ascii.eqb c (ascii_of_nat 10)); [discriminate |].
  destruct (V1.lines s); discriminate.
Qed.

(** The lines of two texts joined by a newline are the lines of the
    first followed by the lines of the second. *)
Lemma lines_append (a r : string) :
  V1.lines (String.append a (String.append V1.newline r))
  = V1.lines a ++ V1.lines r.
Proof.
  change (String.append V1.newline r) with (String (ascii_of_nat 10) r).
  induction a as [| c a IH]; [reflexivity |].
  cbn [String.append V1.lines].
  destruct (Ascii.eqb c (ascii_of_nat 10)).
  - now rewrite IH.
  - rewrite IH. pose proof (lines_not_nil a) as Hn.
    destruct (V1.lines a); [congruence | reflexivity].
Qed.

Lemma lines_join (rules : list string) :
  rules <> [] ->
  V1.lines (V1.Join rules V1.newline) = flat_map V1.lines rules.
Proof.
  induction rules as [| x rules IH]; [congruence |]. intros _.
  destruct rules as [| y rules].
  - simpl. now rewrite app_nil_r.
  - change (V1.Join (x :: y :: rules) V1.newline)
      with (String.append
              x (String.append V1.newline
                               (V1.Join (y :: rules) V1.newline))).
    rewrite lines_append, IH by discriminate. reflexivity.
Qed.

(** A text without a newline is one line. *)
Lemma lines_single (s : string) :
  (forall n, String.get n s <> Some (ascii_of_nat 10)) ->
  V1.lines s = [s].
Proof.
  induction s as [| c s IH]; intro H; [reflexivity |]. simpl.
  destruct (Ascii.eqb_spec c (ascii_of_nat 10)) as [-> | Hc].
  - exfalso. apply (H 0%nat). reflexivity.
  - rewrite IH; [reflexivity |]. intro n. apply (H (S n)).
Qed.

End V1Facts.

Section V1Program.

Context {W : Type} {R : GoRuntime W}.

(** X13.  The first revision's update sends one POST of content type
    text/plain whose body is the rules joined by newlines, and returns
    what the answer says.  Read line by line, the body of a non-empty
    list is the lines of its rules in order: the rules themselves when
    none contains a newline, and otherwise a longer list, a rule with a
    newline in it arriving as several rules. *)
Theorem text_body_one_rule_per_line (config : Config)
        (rules : list string) (s : St W) :
  (url_valid (URL (V1.updateRequest config rules)) = true ->
   V1.updateUserRules config rules s
   = Some (updateResult
             (fst (client_Do (V1.updateRequest config rules) (net s))),
           answered (V1.updateRequest config rules)
                    (fst (client_Do (V1.updateRequest config rules) (net s)))
                    (snd (client_Do (V1.updateRequest config rules) (net s)))
                    (push (EvCall (OpUpdate rules)) s))) /\
  (rules <> [] ->
   V1.lines (V1.Join rules V1.newline) = flat_map V1.lines rules) /\
  (rules <> [] ->
   Forall (fun r => forall n, String.get n r <> Some (ascii_of_nat 10))
          rules ->
   V1.lines (V1.Join rules V1.newline) = rules) /\
  (forall a b rest,
      V1.lines (V1.Join (String.append a (String.append V1.newline b) :: rest)
                        V1.newline)
      = V1.lines (V1.Join (a :: b :: rest) V1.newline)).
Proof.
  split; [| split; [| split]].
  - intro Hv.
    unfold V1.updateUserRules, bind, emit, NewRequest.
    unfold V1.updateRequest in Hv. simpl in Hv. rewrite Hv.
    unfold Do, SetBasicAuth, SetContentType, V1.updateRequest. simpl.
    destruct (client_Do _ (net s)) as [res w'] eqn:E. simpl.
    destruct res as [cause | resp]; simpl; [reflexivity |].
    destruct (StatusCode resp =? StatusOK); reflexivity.
  - apply V1Facts.lines_join.
  - intros Hne Hall. rewrite V1Facts.lines_join by assumption.
    clear Hne. induction Hall as [| r rules Hr _ IH]; [reflexivity |].
    simpl. rewrite (V1Facts.lines_single r Hr), IH. reflexivity.
  - intros a b rest.
    rewrite !V1Facts.lines_join by discriminate.
    cbn [flat_map]. rewrite V1Facts.lines_append, <- app_assoc.
    reflexivity.
Qed.

End V1Program.

Lemma text_body_one_rule_per_line_witness :
  V1.lines (V1.Join ["rule1"; "rule2"; "target"] V1.newline)
  = ["rule1"; "rule2"; "target"].
Proof.
  apply (proj1 (proj2 (proj2 (@text_body_one_rule_per_line
                                Sim.World Sim.runtime Sim.config
                                ["rule1"; "rule2"; "target"]
                                (Sim.world [] []))))).
  - discriminate.
  - repeat constructor;
      intros n; do 8 (destruct n as [| n]; [discriminate |]); discriminate.
Defined.

(* ===================================================================== *)
(** * What [removeRule] keeps *)
(* ===================================================================== *)

Lemma occurrences_without_other (t r : string) (l : list string) :
  r <> t -> occurrences r (without t l) = occurrences r l.
Proof.
  intro Hne. unfold occurrences, without.
  induction l as [| x l IH]; simpl; [reflexivity |].
  destruct (String.eqb_spec x t) as [-> | Hx]; simpl.
  - destruct (string_dec t r); [congruence | exact IH].
  - destruct (string_dec x r); rewrite IH; reflexivity.
Qed.

Lemma length_without (t : string) (l : list string) :
  (List.length (without t l) + occurrences t l = List.length l)%nat.
Proof.
  unfold occurrences, without.
  induction l as [| x l IH]; simpl; [reflexivity |].
  destruct (String.eqb_spec x t) as [-> | Hx]; simpl.
  - destruct (string_dec t t); [lia | congruence].
  - destruct (string_dec x t); [congruence | lia].
Qed.

(** X14.  [removeRule] drops the occurrences of the target and nothing
    else: a rule is in the result exactly when it is in the list and is
    not the target, every other rule occurs as often as before, the
    length goes down by the number of occurrences of the target, and a
    list without the target comes back as it is.  So the list a cycle
    submits holds every other rule as often as the fetched list did, and
    the target once. *)
Theorem removeRule_keeps_the_rest (rules : list string) (T : string) :
  (forall r, In r (removeRule rules T) <-> In r rules /\ r <> T) /\
  (forall r, r <> T ->
             occurrences r (removeRule rules T) = occurrences r rules) /\
  (List.length (removeRule rules T) + occurrences T rules
   = List.length rules)%nat /\
  (~ In T rules -> removeRule rules T = rules) /\
  removeRule (removeRule rules T) T = removeRule rules T /\
  (forall r, occurrences r (updatedRules rules T)
             = if string_dec r T then 1%nat else occurrences r rules) /\
  (List.length (updatedRules rules T) + occurrences T rules
   = S (List.length rules))%nat.
Proof.
  rewrite updatedRules_eq, !removeRule_without.
  split.
  { intro r. unfold without. rewrite filter_In. split; intros [H1 H2].
    - split; [exact H1 |]. intros ->. now rewrite String.eqb_refl in H2.
    - split; [exact H1 |].
      destruct (String.eqb_spec r T); simpl; congruence. }
  split; [intros r Hr; now apply occurrences_without_other |].
  split; [apply length_without |].
  split; [apply without_absent |].
  split; [apply without_idem |].
  split.
  - intro r. rewrite occurrences_app. destruct (string_dec r T) as [-> | Hr].
    + rewrite occurrences_without. unfold occurrences. simpl.
      destruct (string_dec T T); congruence.
    + rewrite occurrences_without_other by assumption.
      unfold occurrences at 2. simpl.
      destruct (string_dec T r); [congruence | lia].
  - rewrite length_app. simpl. pose proof (length_without T rules). lia.
Qed.

(* ===================================================================== *)
(** * Runs of the startup *)
(* ===================================================================== *)

Lemma loadConfig_fields_witness :
  exists config,
    loadConfig SimEnv.env = Loaded config /\
    AdGuardPass config = "secret" /\
    SimEnv.env "ADGUARD_URL" = String.append (AdGuardURL config) "/" /\
    HealthPort config = "8080".
Proof.
  eexists. split; [reflexivity |].
  pose proof (@loadConfig_fields SimEnv.strconv SimEnv.env _ eq_refl)
    as (_ & _ & Hp & _ & _ & _ & Hu & _ & Hh).
  split; [exact Hp |]. split.
  - destruct Hu as [Hu | [_ Hu]]; [exact Hu |].
    exfalso. apply (Hu "http://adguard:3000"). reflexivity.
  - destruct Hh as [Hh | [_ Hh]]; [discriminate Hh | exact Hh].
Defined.

Lemma loadConfig_interval_witness :
  exists config,
    loadConfig SimEnv.env = Loaded config /\
    CheckInterval config = 30000000000 /\
    0 < CheckInterval config.
Proof.
  eexists. split; [reflexivity |].
  pose proof (@loadConfig_interval SimEnv.strconv SimEnv.env _ eq_refl)
    as [[He _] | (n & _ & Ha & _ & Hsmall & _)]; [discriminate He |].
  vm_compute in Ha. injection Ha as <-.
  destruct Hsmall as [H1 H2]; [lia |]. split; [exact H1 | exact H2].
Defined.

(* ===================================================================== *)
(** * The other rules *)
(* ===================================================================== *)

Section OtherRules.

Context {W : Type} {R : GoRuntime W}.
Variable stored : W -> list string.
Context {F : FaithfulStore R stored}.

(** X15.  A cycle that returns [nil] has only moved the target: the
    stored list without its occurrences of the target is what it was
    before the cycle, rule for rule and in the same order, and when the
    cycle made no write the stored list is the same list. *)
Theorem successful_cycle_keeps_other_rules
        (config : Config) (s s' : St W) :
  enforceRulePosition config s = Some (None, s') ->
  without (TargetRule config) (stored (net s'))
  = without (TargetRule config) (stored (net s)) /\
  (forall r, r <> TargetRule config ->
             occurrences r (stored (net s'))
             = occurrences r (stored (net s))) /\
  (last_rule (stored (net s)) = Some (TargetRule config) ->
   stored (net s') = stored (net s)).
Proof.
  intro He. apply enforceRulePosition_ok_inv in He.
  destruct He as (L & s1 & Hf &
                  [(Hlast & Hn & _) | (Hlast & s2 & L' & -> & Hu & Hn & _)]);
    destruct (fetch_observes_store (stored := stored) config s Hf)
      as [HL Hk].
  - rewrite Hn, Hk. repeat split; reflexivity.
  - apply (update_replaces_store (stored := stored)) in Hu.
    rewrite Hn, Hu, <- HL. split; [apply without_updated |]. split.
    + intros r Hr. rewrite occurrences_app.
      rewrite occurrences_without_other by assumption.
      unfold occurrences at 2. simpl.
      destruct (string_dec (TargetRule config) r); [congruence | lia].
    + intro H. congruence.
Qed.

End OtherRules.

Lemma successful_cycle_keeps_other_rules_witness :
  exists s' : St Sim.World,
    enforceRulePosition Sim.config
      (Sim.world ["target"; "rule1"; "target"; "rule2"] [])
    = Some (None, s') /\
    Sim.store (net s') = ["rule1"; "rule2"; "target"] /\
    without "target" (Sim.store (net s')) = ["rule1"; "rule2"].
Proof.
  assert (Hrun : exists s' : St Sim.World,
             enforceRulePosition Sim.config
               (Sim.world ["target"; "rule1"; "target"; "rule2"] [])
             = Some (None, s') /\
             Sim.store (net s') = ["rule1"; "rule2"; "target"])
    by (eexists; split; lazy; reflexivity).
  destruct Hrun as (s' & He & Hs).
  exists s'. split; [exact He |]. split; [exact Hs |].
  exact (proj1 (@successful_cycle_keeps_other_rules
                  Sim.World Sim.runtime Sim.store SimFacts.faithful
                  Sim.config _ s' He)).
Defined.

(* ===================================================================== *)
(** * Runs of the loop against the simulated server *)
(* ===================================================================== *)


Lemma healthy_before_first_cycle_witness :
  0 < CheckInterval Sim.config /\
  exists (s0 : St Sim.World) e s1,
    trace s0 = startupEvents Sim.config /\
    enforceRulePosition Sim.config s0 = Some (e, s1) /\
    healthz s1 = {| StatusCode := StatusOK; Body := "OK" |}.
Proof.
  split; [reflexivity |].
  destruct (@healthy_before_first_cycle
              Sim.World Sim.runtime Sim.config
              {| Sim.store := ["rule1"]; Sim.script := [Sim.Reject 500] |}
              eq_refl)
    as (_ & _ & _ & s0 & Ht & _ & _ & _ & e & s1 & evs & He & _ & Hz).
  exists s0, e, s1. repeat split; assumption.
Defined.

Lemma run_sends_expected_requests_witness :
  exists s' evs,
    main Sim.config 1 (Sim.world ["target"; "rule1"] []) = Some (tt, s') /\
    trace s' = [] ++ evs /\
    Forall (expectedRequest Sim.config) (requests evs).
Proof.
  destruct (@run_sends_expected_requests
              Sim.World Sim.runtime Sim.config 1
              (Sim.world ["target"; "rule1"] []) eq_refl)
    as (s' & evs & Hm & Ht & H & _).
  exists s', evs. repeat split; assumption.
Defined.

Lemma run_writes_end_in_target_witness :
  exists s' evs,
    main Sim.config 1 (Sim.world ["target"; "rule1"] []) = Some (tt, s') /\
    trace s' = [] ++ evs /\
    Forall (fun L => last_rule L = Some "target" /\
                     occurrences "target" L = 1%nat)
           (written evs).
Proof.
  destruct (@run_writes_end_in_target
              Sim.World Sim.runtime Sim.config 1
              (Sim.world ["target"; "rule1"] []) eq_refl)
    as (s' & evs & Hm & Ht & H & _).
  exists s', evs. repeat split; assumption.
Defined.

Lemma run_prints_no_credentials_witness :
  exists s' evs,
    main Sim.config 1
         (Sim.world ["target"; "rule1"] [Sim.Reject 401]) = Some (tt, s') /\
    trace s' = [] ++ evs /\
    forall all l str,
      Interleaving evs (serverEvents "8080" (Some "address in use")) all ->
      In l (logged all) ->
      In str (printed l) ->
      In str (printable Sim.config) \/
      Some "address in use" = Some str \/
      In str (received all).
Proof.
  destruct (@run_prints_no_credentials
              Sim.World Sim.runtime Sim.config 1 (Some "address in use")
              (Sim.world ["target"; "rule1"] [Sim.Reject 401])
              (Sim.world [] []) eq_refl)
    as (s' & evs & sg' & Hm & Ht & _ & _ & H).
  exists s', evs. repeat split; assumption.
Defined.


(** An interval of 9223372037 seconds loads, as a negative duration,
    and the process panics in [time.NewTicker] before its first cycle;
    an interval of 30 seconds runs. *)
Example long_interval_panics :
  (exists config,
      loadConfig SimEnv.longEnv = Loaded config /\
      CheckInterval config = -9223372036709551616) /\
  process false SimEnv.longEnv 3 (Sim.world ["rule1"; "target"] []) = None /\
  exists s',
    process false SimEnv.env 3 (Sim.world ["rule1"; "target"] [])
    = Some (None, s') /\
    fetchCalls (trace s') = 4%nat.
Proof.
  split; [eexists; split; vm_compute; reflexivity |].
  split; [vm_compute; reflexivity |].
  eexists. split; [lazy; reflexivity | vm_compute; reflexivity].
Qed.
